(** * Idempotency persistence layer

    A shallow embedding of
    [aws_lambda_powertools/utilities/idempotency/persistence/base.py]:
    the [DataRecord] class with its derived status, the hashing of the
    idempotency key and of the validation payload, the local cache
    protocol and the four public operations of [BasePersistenceLayer]
    ([save_inprogress], [save_success], [delete_record], [get_record]).

    Conventions of the embedding.
    - A Python [str] is a Rocq [string]; each character stands for the
      code point of the same number (0..255).
    - [int] is [Z]; an optional argument whose default is [None] is an
      [option].
    - The wall clock is explicit: every operation receives [now], the value
      of [int(datetime.datetime.now().timestamp())] while it runs.
    - The expiry timestamp is [now] plus the period.  This is what
      [int((now + period).timestamp())] gives when the clock of the process
      is in UTC, or in a zone whose offset to UTC is the same at [now] and
      a period later, and both times are values of [datetime] (the years 1
      to 9999).  Across a change of the offset the timestamp of the code
      differs from the sum by that change, and out of the range the
      addition raises [OverflowError].  The properties of the life of a
      key are therefore stated on the timestamp the record holds, whatever
      its value, and for times in the range.
    - A method that mutates [self] and may raise is a function from the
      state to an outcome and the state left behind: what was written
      before an exception is raised stays written. *)

From Stdlib Require Import ZArith Lia List Bool Ascii String.
From stdpp Require Import base option list strings pretty gmap.

Open Scope string_scope.
Open Scope list_scope.
Open Scope Z_scope.

(** ** Exceptions *)

(** The exceptions the module raises or lets through.  [KeyError] is the
    built-in raised by a mapping when a key is missing. *)
Inductive exn : Type :=
| IdempotencyInvalidStatusError (status : string)
| IdempotencyItemAlreadyExistsError
| IdempotencyValidationError (msg : string)
| IdempotencyItemNotFoundError
| KeyError (key : string).

Inductive outcome (A : Type) : Type :=
| Return (a : A)
| Raise (e : exn).
Arguments Return {A} a.
Arguments Raise {A} e.

(** ** STATUS_CONSTANTS and DataRecord *)

Module STATUS_CONSTANTS.
Definition INPROGRESS : string := "INPROGRESS".
Definition COMPLETED : string := "COMPLETED".
Definition EXPIRED : string := "EXPIRED".
(** [STATUS_CONSTANTS.values()] *)
Definition values : list string := [INPROGRESS; COMPLETED; EXPIRED].
End STATUS_CONSTANTS.

Record DataRecord : Type := mkDataRecord {
  idempotency_key : string;
  _status : string;
  expiry_timestamp : option Z;
  response_data : string;
  payload_hash : option string
}.

(** [DataRecord(idempotency_key=k)] with every default. *)
Definition DataRecord_default (k : string) : DataRecord :=
  mkDataRecord k "" None "" None.

(** [bool(self.expiry_timestamp and now > self.expiry_timestamp)]:
    [None] and [0] are both falsy, so the comparison is only reached for a
    non-zero timestamp. *)
Definition is_expired (r : DataRecord) (now : Z) : bool :=
  match expiry_timestamp r with
  | None => false
  | Some t => if Z.eqb t 0 then false else Z.ltb t now
  end.

(** [x in STATUS_CONSTANTS.values()] *)
Definition in_values (s : string) : bool :=
  bool_decide (s ∈ STATUS_CONSTANTS.values).

(** The [status] property. *)
Definition status (r : DataRecord) (now : Z) : outcome string :=
  if is_expired r now then Return STATUS_CONSTANTS.EXPIRED
  else if in_values (_status r) then Return (_status r)
  else Raise (IdempotencyInvalidStatusError (_status r)).

(** The derived status in the words of the spec: [EXPIRED] if the expiry
    timestamp is set and [now] is past it, the stored status otherwise. *)
Definition effectiveStatus (r : DataRecord) (now : Z) : string :=
  match expiry_timestamp r with
  | Some t => if now >? t then STATUS_CONSTANTS.EXPIRED else _status r
  | None => _status r
  end.

(** ** JSON values and [json.dumps]

    The values a Lambda event is made of.  A Python [dict] keeps its
    insertion order, so it is an association list; its keys are strings
    ([Dict[str, Any]]).  [None] is [JNull].  Floats and [Decimal] values
    (the only type the [Encoder] subclass adds to the standard encoder) are
    left out. *)
#[warnings="-register-all"]
Inductive json : Type :=
| JNull
| JBool (b : bool)
| JInt (z : Z)
| JStr (s : string)
| JList (l : list json)
| JDict (d : list (string * json)).

Module Json.

Definition dquote : ascii := ascii_of_nat 34.
Definition backslash : ascii := ascii_of_nat 92.

Definition hex_digit (n : N) : ascii :=
  ascii_of_N (if (n <? 10)%N then 48 + n else 87 + n)%N.

(** ['\\u{0:04x}'.format(n)] for [n < 256] *)
Definition u_escape (n : N) : string :=
  String backslash
    (String "u" (String "0" (String "0"
       (String (hex_digit (n / 16)%N) (String (hex_digit (n mod 16)%N) EmptyString))))).

(** [ESCAPE_DCT] with the fallback of [replace], for one character
    matched by [ESCAPE_ASCII]; a character in [' '..'~'] other than the
    quote and the backslash is copied. *)
Definition escape_char (c : ascii) : string :=
  let n := N_of_ascii c in
  if (n =? 34)%N then String backslash (String dquote EmptyString)
  else if (n =? 92)%N then String backslash (String backslash EmptyString)
  else if (n =? 8)%N then String backslash "b"
  else if (n =? 12)%N then String backslash "f"
  else if (n =? 10)%N then String backslash "n"
  else if (n =? 13)%N then String backslash "r"
  else if (n =? 9)%N then String backslash "t"
  else if ((n <? 32) || (126 <? n))%N then u_escape n
  else String c EmptyString.

Fixpoint escape (s : string) : string :=
  match s with
  | EmptyString => EmptyString
  | String c s' => escape_char c +:+ escape s'
  end.

(** [py_encode_basestring_ascii] *)
Definition encode_basestring_ascii (s : string) : string :=
  String dquote (escape s +:+ String dquote EmptyString).

(** [json.dumps(x)] with the default separators [", "] and [": "]. *)
Fixpoint dumps (x : json) : string :=
  match x with
  | JNull => "null"
  | JBool true => "true"
  | JBool false => "false"
  | JInt z => pretty z
  | JStr s => encode_basestring_ascii s
  | JList l => "[" +:+ String.concat ", " (map dumps l) +:+ "]"
  | JDict d =>
      "{" +:+ String.concat ", "
               (map (fun kv => encode_basestring_ascii (fst kv) +:+ ": " +:+ dumps (snd kv)) d)
          +:+ "}"
  end.

End Json.

(** ** Reading the text of [json.dumps] back

    What the proof that [json.dumps] is one-to-one is stated with: the
    characters of a number, the escapes of a string read back, the first
    character of each kind of value, and the text of a bracketed sequence
    cut at its separators. *)
Module JsonText.

Import Json.

(** The characters of a number as [json.dumps] writes it. *)
Definition number_char (c : ascii) : bool :=
  let n := N_of_ascii c in ((48 <=? n) && (n <=? 57) || (n =? 45))%N.

Fixpoint all_number (s : string) : bool :=
  match s with
  | EmptyString => true
  | String c s' => number_char c && all_number s'
  end.

(** What may follow a value in the text: nothing, or a character that is
    not part of a number. *)
Definition delimited (r : string) : Prop :=
  match r with
  | EmptyString => True
  | String c _ => number_char c = false
  end.

Definition hex_value (c : ascii) : option N :=
  let n := N_of_ascii c in
  if ((48 <=? n) && (n <=? 57))%N then Some (n - 48)%N
  else if ((97 <=? n) && (n <=? 102))%N then Some (n - 87)%N
  else None.

(** Reads back what [escape_char] wrote at the head of a text; an
    unescaped quote is the end of the string. *)
Definition unescape_char (s : string) : option (ascii * string) :=
  match s with
  | EmptyString => None
  | String c s' =>
      if Ascii.eqb c dquote then None
      else if Ascii.eqb c backslash then
        match s' with
        | String e s'' =>
            if Ascii.eqb e dquote then Some (dquote, s'')
            else if Ascii.eqb e backslash then Some (backslash, s'')
            else if Ascii.eqb e "b" then Some (ascii_of_N 8, s'')
            else if Ascii.eqb e "f" then Some (ascii_of_N 12, s'')
            else if Ascii.eqb e "n" then Some (ascii_of_N 10, s'')
            else if Ascii.eqb e "r" then Some (ascii_of_N 13, s'')
            else if Ascii.eqb e "t" then Some (ascii_of_N 9, s'')
            else if Ascii.eqb e "u" then
              match s'' with
              | String _ (String _ (String h (String l rest))) =>
                  match hex_value h, hex_value l with
                  | Some a, Some b => Some (ascii_of_N (16 * a + b), rest)
                  | _, _ => None
                  end
              | _ => None
              end
            else None
        | EmptyString => None
        end
      else Some (c, s')
  end.

(** The kind of value a text opens with, by its first character. *)
Definition opens (s : string) : N :=
  match s with
  | EmptyString => 0
  | String c _ =>
      let n := N_of_ascii c in
      if number_char c then 4
      else if (n =? 110)%N then 1
      else if (n =? 116)%N then 2
      else if (n =? 102)%N then 3
      else if (n =? 34)%N then 5
      else if (n =? 91)%N then 6
      else if (n =? 123)%N then 7
      else 0
  end%N.

Definition kind (x : json) : N :=
  match x with
  | JNull => 1
  | JBool true => 2
  | JBool false => 3
  | JInt _ => 4
  | JStr _ => 5
  | JList _ => 6
  | JDict _ => 7
  end%N.

(** One entry of a mapping as it is written. *)
Definition entry (kv : string * json) : string :=
  encode_basestring_ascii (fst kv) +:+ ": " +:+ dumps (snd kv).

Section Sequence.

Variable A : Type.
Variable item : A -> string.
Variable close : ascii.

(** The text after an item: the closing bracket, or a separator and the
    next item. *)
Fixpoint more (l : list A) (r : string) : string :=
  match l with
  | [] => String close r
  | x :: l' => ", " +:+ item x +:+ more l' r
  end.

Definition body (l : list A) (r : string) : string :=
  match l with
  | [] => String close r
  | x :: l' => item x +:+ more l' r
  end.

(** An item can be read back from the head of a delimited text. *)
Definition readable (x : A) : Prop :=
  forall y r1 r2, delimited r1 -> delimited r2 ->
    item x +:+ r1 = item y +:+ r2 -> x = y /\ r1 = r2.

End Sequence.

(** Induction on a value, with the property known for the items of a list
    and the values of a mapping. *)
Fixpoint json_induction (P : json -> Prop)
  (Hnull : P JNull) (Hbool : forall b, P (JBool b)) (Hint : forall z, P (JInt z))
  (Hstr : forall s, P (JStr s))
  (Hlist : forall l, Forall P l -> P (JList l))
  (Hdict : forall d, Forall (fun kv => P (snd kv)) d -> P (JDict d))
  (x : json) {struct x} : P x :=
  match x with
  | JNull => Hnull
  | JBool b => Hbool b
  | JInt z => Hint z
  | JStr s => Hstr s
  | JList l =>
      Hlist l
        ((fix all (l : list json) : Forall P l :=
            match l with
            | [] => @List.Forall_nil _ P
            | y :: l' =>
                @List.Forall_cons _ _ y l'
                  (json_induction P Hnull Hbool Hint Hstr Hlist Hdict y) (all l')
            end) l)
  | JDict d =>
      Hdict d
        ((fix all (d : list (string * json)) : Forall (fun kv => P (snd kv)) d :=
            match d with
            | [] => @List.Forall_nil _ _
            | kv :: d' =>
                @List.Forall_cons _ (fun kv => P (snd kv)) kv d'
                  (json_induction P Hnull Hbool Hint Hstr Hlist Hdict (snd kv)) (all d')
            end) d)
  end.

End JsonText.

(** ** MD5, the default of [hash_function]

    [hashlib.md5(data).hexdigest()] after RFC 1321, on 32-bit words held in
    [Z] with the wrap-around written out. *)
Module MD5.

Definition add32 (x y : Z) : Z := (x + y) mod 2 ^ 32.
Definition not32 (x : Z) : Z := Z.lxor x 0xffffffff.
Definition rotl32 (x c : Z) : Z :=
  Z.lor (Z.shiftl x c mod 2 ^ 32) (Z.shiftr x (32 - c)).

Definition K : list Z :=
  [ 0xd76aa478; 0xe8c7b756; 0x242070db; 0xc1bdceee;
    0xf57c0faf; 0x4787c62a; 0xa8304613; 0xfd469501;
    0x698098d8; 0x8b44f7af; 0xffff5bb1; 0x895cd7be;
    0x6b901122; 0xfd987193; 0xa679438e; 0x49b40821;
    0xf61e2562; 0xc040b340; 0x265e5a51; 0xe9b6c7aa;
    0xd62f105d; 0x02441453; 0xd8a1e681; 0xe7d3fbc8;
    0x21e1cde6; 0xc33707d6; 0xf4d50d87; 0x455a14ed;
    0xa9e3e905; 0xfcefa3f8; 0x676f02d9; 0x8d2a4c8a;
    0xfffa3942; 0x8771f681; 0x6d9d6122; 0xfde5380c;
    0xa4beea44; 0x4bdecfa9; 0xf6bb4b60; 0xbebfbc70;
    0x289b7ec6; 0xeaa127fa; 0xd4ef3085; 0x04881d05;
    0xd9d4d039; 0xe6db99e5; 0x1fa27cf8; 0xc4ac5665;
    0xf4292244; 0x432aff97; 0xab9423a7; 0xfc93a039;
    0x655b59c3; 0x8f0ccc92; 0xffeff47d; 0x85845dd1;
    0x6fa87e4f; 0xfe2ce6e0; 0xa3014314; 0x4e0811a1;
    0xf7537e82; 0xbd3af235; 0x2ad7d2bb; 0xeb86d391 ].

Definition shifts : list Z :=
  [ 7; 12; 17; 22; 7; 12; 17; 22; 7; 12; 17; 22; 7; 12; 17; 22;
    5; 9; 14; 20; 5; 9; 14; 20; 5; 9; 14; 20; 5; 9; 14; 20;
    4; 11; 16; 23; 4; 11; 16; 23; 4; 11; 16; 23; 4; 11; 16; 23;
    6; 10; 15; 21; 6; 10; 15; 21; 6; 10; 15; 21; 6; 10; 15; 21 ].

Definition regs : Type := (Z * Z * Z * Z)%type.

Definition init : regs := (0x67452301, 0xefcdab89, 0x98badcfe, 0x10325476).

(** One of the 64 operations on the block [M] of sixteen words. *)
Definition step (M : list Z) (st : regs) (i : Z) : regs :=
  let '(a, b, c, d) := st in
  let '(f, g) :=
    if i <? 16 then (Z.lor (Z.land b c) (Z.land (not32 b) d), i)
    else if i <? 32 then (Z.lor (Z.land d b) (Z.land (not32 d) c), (5 * i + 1) mod 16)
    else if i <? 48 then (Z.lxor (Z.lxor b c) d, (3 * i + 5) mod 16)
    else (Z.lxor c (Z.lor b (not32 d)), (7 * i) mod 16) in
  let f' := add32 (add32 (add32 f a) (nth (Z.to_nat i) K 0)) (nth (Z.to_nat g) M 0) in
  (d, add32 b (rotl32 f' (nth (Z.to_nat i) shifts 0)), b, c).

Definition block (st : regs) (M : list Z) : regs :=
  let '(a0, b0, c0, d0) := st in
  let '(a, b, c, d) := fold_left (step M) (map Z.of_nat (seq 0 64)) st in
  (add32 a0 a, add32 b0 b, add32 c0 c, add32 d0 d).

(** [n] bytes of [x], least significant first. *)
Fixpoint le_bytes (n : nat) (x : Z) : list Z :=
  match n with
  | O => []
  | S n' => x mod 256 :: le_bytes n' (x / 256)
  end.

Definition pad (msg : list Z) : list Z :=
  let len := Z.of_nat (length msg) in
  let zeros := Z.to_nat ((55 - len) mod 64) in
  msg ++ 0x80 :: repeat 0 zeros ++ le_bytes 8 ((8 * len) mod 2 ^ 64).

(** Little-endian words of a byte list whose length is a multiple of 4;
    the fuel is the length of the list, more than the words it holds. *)
Fixpoint words (fuel : nat) (bs : list Z) : list Z :=
  match fuel, bs with
  | S fuel', b0 :: b1 :: b2 :: b3 :: bs' =>
      (b0 + 256 * (b1 + 256 * (b2 + 256 * b3))) :: words fuel' bs'
  | _, _ => []
  end.

(** The blocks of sixteen words, with the number of words for fuel. *)
Fixpoint blocks (fuel : nat) (ws : list Z) : list (list Z) :=
  match fuel, ws with
  | S fuel', _ :: _ => take 16 ws :: blocks fuel' (drop 16 ws)
  | _, _ => []
  end.

Definition hex_byte (b : Z) : string :=
  String (Json.hex_digit (Z.to_N (b / 16)))
    (String (Json.hex_digit (Z.to_N (b mod 16))) EmptyString).

Definition hexdigest (st : regs) : string :=
  let '(a, b, c, d) := st in
  String.concat EmptyString
    (map hex_byte (le_bytes 4 a ++ le_bytes 4 b ++ le_bytes 4 c ++ le_bytes 4 d)).

Definition bytes_of (s : string) : list Z :=
  map (fun c => Z.of_N (N_of_ascii c)) (list_ascii_of_string s).

Definition md5 (s : string) : string :=
  let bs := pad (bytes_of s) in
  let ws := words (length bs) bs in
  hexdigest (fold_left block (blocks (length ws) ws) init).

End MD5.

(** ** The local cache *)

(** Modelled from the spec: [LRUDict] of
    [aws_lambda_powertools/shared/cache_dict.py] is imported by the module
    but is not among the sources.  The spec (4.2) describes a bounded map
    of capacity [max_items] with strict least-recently-used eviction on
    both read and write access and the operations get, put and delete.
    The entries are kept oldest first.  Deleting is the mapping's own
    [del d[k]], which raises [KeyError] for a key that is not there. *)
Module LRUDict.

Record t : Type := mk {
  max_items : Z;
  items : list (string * DataRecord)
}.

Definition empty (n : Z) : t := mk n [].

Fixpoint lookup (k : string) (l : list (string * DataRecord)) : option DataRecord :=
  match l with
  | [] => None
  | (k', v) :: l' => if String.eqb k' k then Some v else lookup k l'
  end.

Fixpoint remove (k : string) (l : list (string * DataRecord)) : list (string * DataRecord) :=
  match l with
  | [] => []
  | (k', v) :: l' => if String.eqb k' k then remove k l' else (k', v) :: remove k l'
  end.

(** [d.get(k)]: a hit becomes the most recently used entry. *)
Definition get (k : string) (d : t) : option DataRecord * t :=
  match lookup k (items d) with
  | Some v => (Some v, mk (max_items d) (remove k (items d) ++ [(k, v)]))
  | None => (None, d)
  end.

(** [d[k] = v]: the entry becomes the most recently used one, then the
    oldest entry is dropped if the capacity is exceeded. *)
Definition setitem (k : string) (v : DataRecord) (d : t) : t :=
  let l := remove k (items d) ++ [(k, v)] in
  mk (max_items d) (if max_items d <? Z.of_nat (length l) then tail l else l).

(** [del d[k]] *)
Definition delitem (k : string) (d : t) : outcome unit * t :=
  match lookup k (items d) with
  | Some _ => (Return tt, mk (max_items d) (remove k (items d)))
  | None => (Raise (KeyError k), d)
  end.

End LRUDict.

(** ** The persistence layer *)

(** The four abstract methods a concrete layer provides.  Each one runs on
    the store's own state [S] at the time [now] and either returns or
    raises. *)
Class PersistenceStore (S : Type) : Type := {
  _get_record : string -> Z -> S -> outcome DataRecord * S;
  _put_record : DataRecord -> Z -> S -> outcome unit * S;
  _update_record : DataRecord -> Z -> S -> outcome unit * S;
  _delete_record : DataRecord -> Z -> S -> outcome unit * S
}.

(** The arguments of [BasePersistenceLayer.__init__].  [hash_function] is
    the digest looked up in [hashlib], from bytes to [hexdigest()]. *)
Record BasePersistenceLayer : Type := mkLayer {
  event_key_jmespath : string;
  payload_validation_jmespath : string;
  expires_after_seconds : Z;
  use_local_cache : bool;
  local_cache_max_items : Z;
  hash_function : string -> string
}.

(** Truthiness of a [str]: non-empty. *)
Definition truthy (s : string) : bool :=
  match s with EmptyString => false | String _ _ => true end.

Definition payload_validation_enabled (self : BasePersistenceLayer) : bool :=
  truthy (payload_validation_jmespath self).

(** What an instance carries besides its settings: the local cache and the
    state of the store behind the abstract methods. *)
Record state (S : Type) : Type := mkState {
  _cache : LRUDict.t;
  store : S
}.
Arguments mkState {S} _ _.
Arguments _cache {S} _.
Arguments store {S} _.

(** A method: from the state to an outcome and the state it leaves. *)
Definition M (S A : Type) : Type := state S -> outcome A * state S.

Definition ret {S A} (a : A) : M S A := fun st => (Return a, st).
Definition raise {S A} (e : exn) : M S A := fun st => (Raise e, st).
Definition bind {S A B} (m : M S A) (k : A -> M S B) : M S B :=
  fun st =>
    match m st with
    | (Return a, st') => k a st'
    | (Raise e, st') => (Raise e, st')
    end.

Declare Scope method_scope.
Delimit Scope method_scope with method.
Notation "x <- c1 ;; c2" := (bind c1 (fun x => c2))
  (at level 100, c1 at next level, right associativity) : method_scope.
Notation "c1 ;; c2" := (bind c1 (fun _ => c2))
  (at level 100, right associativity) : method_scope.

Definition on_cache {S A} (f : LRUDict.t -> outcome A * LRUDict.t) : M S A :=
  fun st => let (r, c) := f (_cache st) in (r, mkState c (store st)).

Definition on_store {S A} (f : S -> outcome A * S) : M S A :=
  fun st => let (r, s) := f (store st) in (r, mkState (_cache st) s).

Definition lift {S A} (o : outcome A) : M S A := fun st => (o, st).

Section Layer.

(** [jmespath.compile(expression).search(data)]; a query that matches
    nothing yields [None]. *)
Variable jmespath_search : string -> json -> json.

Context {S : Type} `{PersistenceStore S}.

Variable self : BasePersistenceLayer.

(** The state of a fresh instance on the store [s]. *)
Definition init (s : S) : state S :=
  mkState (LRUDict.empty (local_cache_max_items self)) s.

Definition _generate_hash (data : json) : string :=
  hash_function self (Json.dumps data).

Definition _get_hashed_idempotency_key (lambda_event : json) : string :=
  let data :=
    if truthy (event_key_jmespath self)
    then jmespath_search (event_key_jmespath self) lambda_event
    else lambda_event in
  _generate_hash data.

Definition _get_hashed_payload (lambda_event : json) : string :=
  if negb (payload_validation_enabled self) then EmptyString
  else _generate_hash (jmespath_search (payload_validation_jmespath self) lambda_event).

Definition validation_message : string :=
  "Payload does not match stored record for this event key".

Definition _validate_payload (lambda_event : json) (data_record : DataRecord)
  : outcome unit :=
  if payload_validation_enabled self then
    let lambda_payload_hash := _get_hashed_payload lambda_event in
    if bool_decide (payload_hash data_record = Some lambda_payload_hash)
    then Return tt
    else Raise (IdempotencyValidationError validation_message)
  else Return tt.

(** [int((now + period).timestamp())]: the whole seconds of the clock plus
    the period, itself a whole number of seconds.  The sum is the value of
    the code for a clock in UTC and a date within the years [datetime]
    holds (see the conventions above). *)
Definition _get_expiry_timestamp (now : Z) : Z :=
  now + expires_after_seconds self.

Open Scope method_scope.

Definition _save_to_cache (now : Z) (data_record : DataRecord) : M S unit :=
  if negb (use_local_cache self) then ret tt
  else
    st <- lift (status data_record now) ;;
    if String.eqb st STATUS_CONSTANTS.INPROGRESS then ret tt
    else on_cache (fun c =>
           (Return tt, LRUDict.setitem (idempotency_key data_record) data_record c)).

Definition _delete_from_cache (idempotency_key : string) : M S unit :=
  if negb (use_local_cache self) then ret tt
  else on_cache (LRUDict.delitem idempotency_key).

Definition _retrieve_from_cache (now : Z) (idempotency_key : string)
  : M S (option DataRecord) :=
  if negb (use_local_cache self) then ret None
  else
    cached_record <- on_cache (fun c =>
                       let (r, c') := LRUDict.get idempotency_key c in (Return r, c')) ;;
    match cached_record with
    | Some r =>
        if negb (is_expired r now) then ret (Some r)
        else (_delete_from_cache idempotency_key ;; ret None)
    | None => ret None
    end.

Definition save_success (now : Z) (event result : json) : M S unit :=
  let response_data := Json.dumps result in
  let data_record :=
    mkDataRecord (_get_hashed_idempotency_key event)
                 STATUS_CONSTANTS.COMPLETED
                 (Some (_get_expiry_timestamp now))
                 response_data
                 (Some (_get_hashed_payload event)) in
  on_store (_update_record data_record now) ;;
  _save_to_cache now data_record.

Definition save_inprogress (now : Z) (event : json) : M S unit :=
  let data_record :=
    mkDataRecord (_get_hashed_idempotency_key event)
                 STATUS_CONSTANTS.INPROGRESS
                 (Some (_get_expiry_timestamp now))
                 EmptyString
                 (Some (_get_hashed_payload event)) in
  cached <- _retrieve_from_cache now (idempotency_key data_record) ;;
  match cached with
  | Some _ => raise IdempotencyItemAlreadyExistsError
  | None => on_store (_put_record data_record now)
  end.

(** The [exception] argument is only written to the log. *)
Definition delete_record (now : Z) (event : json) : M S unit :=
  let data_record := DataRecord_default (_get_hashed_idempotency_key event) in
  on_store (_delete_record data_record now) ;;
  _delete_from_cache (idempotency_key data_record).

Definition get_record (now : Z) (event : json) : M S DataRecord :=
  let idempotency_key := _get_hashed_idempotency_key event in
  cached_record <- _retrieve_from_cache now idempotency_key ;;
  match cached_record with
  | Some r =>
      lift (_validate_payload event r) ;;
      ret r
  | None =>
      record <- on_store (_get_record idempotency_key now) ;;
      _save_to_cache now record ;;
      lift (_validate_payload event record) ;;
      ret record
  end.

Close Scope method_scope.

End Layer.

(** ** A store and a query to run the layer on *)

(** A store that keeps its records in memory and follows the contract the
    docstrings of the four abstract methods give: [_get_record] raises
    [IdempotencyItemNotFoundError] when there is no record, [_put_record]
    raises [IdempotencyItemAlreadyExistsError] when a record that has not
    expired is there, [_update_record] overwrites and [_delete_record]
    removes. *)
Module MemoryStore.

Definition get (k : string) (now : Z) (s : gmap string DataRecord)
  : outcome DataRecord * gmap string DataRecord :=
  match s !! k with
  | Some r => (Return r, s)
  | None => (Raise IdempotencyItemNotFoundError, s)
  end.

Definition put (r : DataRecord) (now : Z) (s : gmap string DataRecord)
  : outcome unit * gmap string DataRecord :=
  match s !! idempotency_key r with
  | Some old =>
      if is_expired old now then (Return tt, <[idempotency_key r := r]> s)
      else (Raise IdempotencyItemAlreadyExistsError, s)
  | None => (Return tt, <[idempotency_key r := r]> s)
  end.

Definition update (r : DataRecord) (now : Z) (s : gmap string DataRecord)
  : outcome unit * gmap string DataRecord :=
  (Return tt, <[idempotency_key r := r]> s).

Definition del (r : DataRecord) (now : Z) (s : gmap string DataRecord)
  : outcome unit * gmap string DataRecord :=
  (Return tt, delete (idempotency_key r) s).

End MemoryStore.

#[export] Instance memory_store : PersistenceStore (gmap string DataRecord) := {|
  _get_record := MemoryStore.get;
  _put_record := MemoryStore.put;
  _update_record := MemoryStore.update;
  _delete_record := MemoryStore.del
|}.

(** The JMESPath expressions that are a single identifier: the field of
    that name when the data is an object that has it, [None] otherwise. *)
Fixpoint field (name : string) (d : list (string * json)) : json :=
  match d with
  | [] => JNull
  | (k, v) :: d' => if String.eqb k name then v else field name d'
  end.

Definition search_identifier (expression : string) (data : json) : json :=
  match data with
  | JDict d => field expression d
  | _ => JNull
  end.

(** A layer with the default settings but for the two queries and the
    local cache. *)
Definition layer (key_query validation_query : string) (cache : bool)
  : BasePersistenceLayer :=
  mkLayer key_query validation_query (60 * 60) cache 256 MD5.md5.

(** The public methods as calls, to run a sequence of them: each call comes
    with the time at which it is made, and a call that raises leaves the
    state as it was at the raise for the calls after it. *)
Inductive call : Type :=
| SaveInprogress (event : json)
| SaveSuccess (event result : json)
| DeleteRecord (event : json)
| GetRecord (event : json).

Inductive reply : Type :=
| Done
| Found (r : DataRecord).

Section Calls.

Variable jmespath_search : string -> json -> json.
Context {S : Type} `{PersistenceStore S}.
Variable self : BasePersistenceLayer.

Definition perform (now : Z) (c : call) : M S reply :=
  match c with
  | SaveInprogress ev =>
      bind (save_inprogress jmespath_search self now ev) (fun _ => ret Done)
  | SaveSuccess ev result =>
      bind (save_success jmespath_search self now ev result) (fun _ => ret Done)
  | DeleteRecord ev =>
      bind (delete_record jmespath_search self now ev) (fun _ => ret Done)
  | GetRecord ev =>
      bind (get_record jmespath_search self now ev) (fun r => ret (Found r))
  end.

Fixpoint run (calls : list (Z * call)) (st : state S) : list (outcome reply) :=
  match calls with
  | [] => []
  | (now, c) :: calls' =>
      let (o, st') := perform now c st in o :: run calls' st'
  end.

(** The state a sequence of calls leaves. *)
Fixpoint exec (calls : list (Z * call)) (st : state S) : state S :=
  match calls with
  | [] => st
  | (now, c) :: calls' => exec calls' (snd (perform now c st))
  end.

End Calls.

(** The calls are made in the order of their times, none before [t0]. *)
Fixpoint chronological (t0 : Z) (calls : list (Z * call)) : Prop :=
  match calls with
  | [] => True
  | (t, _) :: calls' => t0 <= t /\ chronological t calls'
  end.

(** The time of the last call, [t0] when there is none. *)
Fixpoint end_time (t0 : Z) (calls : list (Z * call)) : Z :=
  match calls with
  | [] => t0
  | (t, _) :: calls' => end_time t calls'
  end.

(** No entry of the cache is a record stored as [INPROGRESS] that has not
    expired at [now]. *)
Definition no_live_inprogress (now : Z) (c : LRUDict.t) : Prop :=
  Forall (fun kv => _status (snd kv) = STATUS_CONSTANTS.INPROGRESS ->
                    is_expired (snd kv) now = true)
         (LRUDict.items c).

(** A method keeps a property of the cache. *)
Definition keeps {S A : Type} (I : LRUDict.t -> Prop) (m : M S A) : Prop :=
  forall st, I (_cache st) -> I (_cache (snd (m st))).

(** The events and records of the examples. *)
Definition order_1 : json := JDict [("id", JInt 1); ("body", JStr "x")].
Definition order_1_changed : json := JDict [("id", JInt 1); ("body", JStr "y")].

Definition empty_store : gmap string DataRecord := ∅.

(** The record [save_success] writes at time 100 for [order_1] and the
    result [5] under [layer "id" "body" _], and a store that holds it. *)
Definition completed_1 : DataRecord :=
  mkDataRecord "c4ca4238a0b923820dcc509a6f75849b" "COMPLETED" (Some 3700) "5"
               (Some "3fbf839fa0e778a20326ddc34f5cd588").

Definition store_completed_1 : gmap string DataRecord :=
  <["c4ca4238a0b923820dcc509a6f75849b" := completed_1]> ∅.

(** Two mappings with the same entries in a different order. *)
Definition reordered (x y : json) : Prop :=
  match x, y with
  | JDict d1, JDict d2 => NoDup (map fst d1) /\ d1 <> d2 /\ Permutation d1 d2
  | _, _ => False
  end.

(** The state after the entry of key [k] has left the cache. *)
Definition evicted {S : Type} (k : string) (st : state S) : state S :=
  mkState (LRUDict.mk (LRUDict.max_items (_cache st))
                      (LRUDict.remove k (LRUDict.items (_cache st))))
          (store st).

(** The same layer with the local cache switched on or off. *)
Definition with_cache (b : bool) (self : BasePersistenceLayer) : BasePersistenceLayer :=
  mkLayer (event_key_jmespath self) (payload_validation_jmespath self)
          (expires_after_seconds self) b (local_cache_max_items self)
          (hash_function self).

(** The outcome with the [KeyError] of the cache taken for a return. *)
Definition forgive (o : outcome reply) : outcome reply :=
  match o with
  | Raise (KeyError _) => Return Done
  | _ => o
  end.

(** Every record of the store is filed under its own key and has a known
    status. *)
Definition store_ok (s : gmap string DataRecord) : Prop :=
  forall k r, s !! k = Some r -> idempotency_key r = k /\ in_values (_status r) = true.

(** Every entry of the cache is the record the store holds for its key. *)
Definition mirrors (c : LRUDict.t) (s : gmap string DataRecord) : Prop :=
  Forall (fun kv => s !! fst kv = Some (snd kv)) (LRUDict.items c).

(** The two instances agree on the store, and the cache of the first
    mirrors it. *)
Definition sim (st_c st_n : state (gmap string DataRecord)) : Prop :=
  store st_c = store st_n
  /\ mirrors (_cache st_c) (store st_c)
  /\ store_ok (store st_c).

(** What one call gives with the cache ([o_c], from the state [st_c]) and
    without it ([o_n]).  The two outcomes are the same, except for a
    [delete_record] made while the cache has no entry for the key of the
    event: there the instance with the cache raises [KeyError] and the
    other returns.  A [delete_record] of a cached key returns in both. *)
Definition agree_at {S : Type} (jmespath_search : string -> json -> json)
  (self : BasePersistenceLayer) (c : call) (st_c : state S)
  (o_c o_n : outcome reply) : Prop :=
  match c with
  | DeleteRecord ev =>
      let k := _get_hashed_idempotency_key jmespath_search self ev in
      match LRUDict.lookup k (LRUDict.items (_cache st_c)) with
      | Some _ => o_c = Return Done /\ o_n = Return Done
      | None => o_c = Raise (KeyError k) /\ o_n = Return Done
      end
  | _ => o_c = o_n
  end.

(** The two runs agree call by call. *)
Fixpoint agree (jmespath_search : string -> json -> json)
  (self : BasePersistenceLayer) (calls : list (Z * call))
  (st_c st_n : state (gmap string DataRecord)) : Prop :=
  match calls with
  | [] => True
  | (now, c) :: calls' =>
      agree_at jmespath_search self c st_c
        (fst (perform jmespath_search self now c st_c))
        (fst (perform jmespath_search (with_cache false self) now c st_n))
      /\ agree jmespath_search self calls'
           (snd (perform jmespath_search self now c st_c))
           (snd (perform jmespath_search (with_cache false self) now c st_n))
  end.

(** ** The records the methods build, and what the cache holds *)

Section Records.

Variable jmespath_search : string -> json -> json.
Variable self : BasePersistenceLayer.

(** The record [save_success] builds for an event and its result. *)
Definition completed_record (now : Z) (event result : json) : DataRecord :=
  mkDataRecord (_get_hashed_idempotency_key jmespath_search self event)
               STATUS_CONSTANTS.COMPLETED
               (Some (_get_expiry_timestamp self now))
               (Json.dumps result)
               (Some (_get_hashed_payload jmespath_search self event)).

(** The record [save_inprogress] builds for an event. *)
Definition inprogress_record (now : Z) (event : json) : DataRecord :=
  mkDataRecord (_get_hashed_idempotency_key jmespath_search self event)
               STATUS_CONSTANTS.INPROGRESS
               (Some (_get_expiry_timestamp self now))
               EmptyString
               (Some (_get_hashed_payload jmespath_search self event)).

End Records.

(** [datetime] holds the years 1 to 9999.  A time is in range from one day
    after the epoch to the end of the year 9998: there the local time of
    every zone, and the times the conversion to a timestamp looks at, are
    values of [datetime]. *)
Definition in_datetime_range (t : Z) : Prop := 86400 <= t < 253370764800.

(** At [now], [_get_expiry_timestamp] computes a timestamp: the time of the
    call and the time a period later are in range, so neither the addition
    nor the conversion raises [OverflowError]. *)
Definition expiry_computed (self : BasePersistenceLayer) (now : Z) : Prop :=
  in_datetime_range now /\ in_datetime_range (now + expires_after_seconds self).

(** The record a call has built for an event, whatever expiry timestamp it
    has been given. *)
Definition record_of (jmespath_search : string -> json -> json)
  (self : BasePersistenceLayer) (event : json) (raw_status response : string)
  (r : DataRecord) : Prop :=
  idempotency_key r = _get_hashed_idempotency_key jmespath_search self event
  /\ _status r = raw_status
  /\ response_data r = response
  /\ payload_hash r = Some (_get_hashed_payload jmespath_search self event).

(** The state after a cache hit: the entry of key [k] is the most recently
    used one. *)
Definition touched {S : Type} (k : string) (r : DataRecord) (st : state S) : state S :=
  mkState (LRUDict.mk (LRUDict.max_items (_cache st))
                      (LRUDict.remove k (LRUDict.items (_cache st)) ++ [(k, r)]))
          (store st).

(** A method adds no entry to the cache. *)
Definition adds_nothing {S A : Type} (m : M S A) : Prop :=
  forall st kv,
    kv ∈ LRUDict.items (_cache (snd (m st))) -> kv ∈ LRUDict.items (_cache st).

(** An entry of the cache is filed under the key of its record, and the
    record is stored as [COMPLETED] or [EXPIRED] or has expired by [now]. *)
Definition entry_ok (now : Z) (kv : string * DataRecord) : Prop :=
  idempotency_key (snd kv) = fst kv
  /\ (_status (snd kv) = STATUS_CONSTANTS.COMPLETED
      \/ _status (snd kv) = STATUS_CONSTANTS.EXPIRED
      \/ is_expired (snd kv) now = true).

Definition cache_entries_ok (now : Z) (c : LRUDict.t) : Prop :=
  Forall (entry_ok now) (LRUDict.items c).

(** ** [json.loads]

    The decoder of the standard library on the texts the value type can
    hold: no floats ([NaN], [Infinity] and numbers with a fraction or an
    exponent), no escape above code point 255.  [None] stands for
    [JSONDecodeError] and for a value outside the type. *)
Module JsonLoads.

Import Json.

(** [WHITESPACE]: space, tab, line feed, carriage return. *)
Definition is_ws (c : ascii) : bool :=
  let n := N_of_ascii c in ((n =? 32) || (n =? 9) || (n =? 10) || (n =? 13))%N.

Fixpoint skip_ws (s : string) : string :=
  match s with
  | String c s' => if is_ws c then skip_ws s' else s
  | EmptyString => EmptyString
  end.

Definition hex_digit_value (c : ascii) : option N :=
  let n := N_of_ascii c in
  if ((48 <=? n) && (n <=? 57))%N then Some (n - 48)%N
  else if ((97 <=? n) && (n <=? 102))%N then Some (n - 87)%N
  else if ((65 <=? n) && (n <=? 70))%N then Some (n - 55)%N
  else None.

(** [BACKSLASH] *)
Definition backslash_char (e : ascii) : option ascii :=
  if Ascii.eqb e dquote then Some dquote
  else if Ascii.eqb e backslash then Some backslash
  else if Ascii.eqb e "/" then Some "/"%char
  else if Ascii.eqb e "b" then Some (ascii_of_N 8)
  else if Ascii.eqb e "f" then Some (ascii_of_N 12)
  else if Ascii.eqb e "n" then Some (ascii_of_N 10)
  else if Ascii.eqb e "r" then Some (ascii_of_N 13)
  else if Ascii.eqb e "t" then Some (ascii_of_N 9)
  else None.

(** [scanstring], strict, from the character after the opening quote: the
    string and the text after its closing quote. *)
Fixpoint scanstring (s : string) : option (string * string) :=
  match s with
  | EmptyString => None
  | String c s' =>
      if Ascii.eqb c dquote then Some (EmptyString, s')
      else if Ascii.eqb c backslash then
        match s' with
        | EmptyString => None
        | String e s'' =>
            if Ascii.eqb e "u" then
              match s'' with
              | String h1 (String h2 (String h3 (String h4 rest))) =>
                  match hex_digit_value h1, hex_digit_value h2,
                        hex_digit_value h3, hex_digit_value h4 with
                  | Some a, Some b, Some c', Some d =>
                      let n := (((a * 16 + b) * 16 + c') * 16 + d)%N in
                      if (n <? 256)%N then
                        match scanstring rest with
                        | Some (t, r) => Some (String (ascii_of_N n) t, r)
                        | None => None
                        end
                      else None
                  | _, _, _, _ => None
                  end
              | _ => None
              end
            else
              match backslash_char e with
              | Some ch =>
                  match scanstring s'' with
                  | Some (t, r) => Some (String ch t, r)
                  | None => None
                  end
              | None => None
              end
        end
      else if (N_of_ascii c <? 32)%N then None
      else
        match scanstring s' with
        | Some (t, r) => Some (String c t, r)
        | None => None
        end
  end.

Definition digit_value (c : ascii) : option N :=
  let n := N_of_ascii c in
  if ((48 <=? n) && (n <=? 57))%N then Some (n - 48)%N else None.

Definition is_digit (c : ascii) : bool :=
  match digit_value c with Some _ => true | None => false end.

(** The run of digits at the head of a text, read in base ten onto [acc]. *)
Fixpoint digits (s : string) (acc : N) : N * string :=
  match s with
  | String c s' =>
      match digit_value c with
      | Some d => digits s' (10 * acc + d)%N
      | None => (acc, s)
      end
  | EmptyString => (acc, EmptyString)
  end.

(** The integer part of a number: [0], or a digit from 1 to 9 and the
    digits after it. *)
Definition scan_int (s : string) : option (N * string) :=
  match s with
  | String c s' =>
      match digit_value c with
      | Some 0%N => Some (0%N, s')
      | Some _ => Some (digits s 0)
      | None => None
      end
  | EmptyString => None
  end.

(** A fraction or an exponent follows: the number is a float. *)
Definition float_follows (s : string) : bool :=
  match s with
  | String c s' =>
      if Ascii.eqb c "." then
        match s' with String d _ => is_digit d | EmptyString => false end
      else if Ascii.eqb c "e" || Ascii.eqb c "E" then
        match s' with
        | String d s'' =>
            if is_digit d then true
            else if Ascii.eqb d "+" || Ascii.eqb d "-" then
              match s'' with String d' _ => is_digit d' | EmptyString => false end
            else false
        | EmptyString => false
        end
      else false
  | EmptyString => false
  end.

Definition scan_number (s : string) : option (Z * string) :=
  let (negative, s1) :=
    match s with
    | String c s' => if Ascii.eqb c "-" then (true, s') else (false, s)
    | EmptyString => (false, s)
    end in
  match scan_int s1 with
  | Some (n, r) =>
      if float_follows r then None
      else Some (if negative then (- Z.of_N n)%Z else Z.of_N n, r)
  | None => None
  end.

(** The text starts with [p]: the text after it. *)
Fixpoint strip (p s : string) : option string :=
  match p, s with
  | EmptyString, _ => Some s
  | String a p', String b s' => if Ascii.eqb a b then strip p' s' else None
  | String _ _, EmptyString => None
  end.

(** [d[k] = v] on a [dict]: the value of a key that is there is replaced
    where it stands, a new key goes last. *)
Fixpoint dict_set (k : string) (v : json) (d : list (string * json))
  : list (string * json) :=
  match d with
  | [] => [(k, v)]
  | (k', v') :: d' =>
      if String.eqb k' k then (k, v) :: d' else (k', v') :: dict_set k v d'
  end.

(** [dict(pairs)] *)
Definition dict_of_pairs (pairs : list (string * json)) : list (string * json) :=
  fold_left (fun d kv => dict_set (fst kv) (snd kv) d) pairs [].

(** [scan_once], [JSONArray] from its first item and [JSONObject] from the
    quote of its first key.  The fuel bounds the number of values and items
    read. *)
Fixpoint scan_once (fuel : nat) (s : string) : option (json * string) :=
  match fuel with
  | O => None
  | S fuel' =>
      match s with
      | EmptyString => None
      | String c s' =>
          if Ascii.eqb c dquote then
            match scanstring s' with
            | Some (t, r) => Some (JStr t, r)
            | None => None
            end
          else if Ascii.eqb c "{" then
            match skip_ws s' with
            | String c1 r1 =>
                if Ascii.eqb c1 "}" then Some (JDict [], r1)
                else
                  match scan_pairs fuel' (String c1 r1) with
                  | Some (pairs, r) => Some (JDict (dict_of_pairs pairs), r)
                  | None => None
                  end
            | EmptyString => None
            end
          else if Ascii.eqb c "[" then
            match skip_ws s' with
            | String c1 r1 =>
                if Ascii.eqb c1 "]" then Some (JList [], r1)
                else
                  match scan_items fuel' (String c1 r1) with
                  | Some (values, r) => Some (JList values, r)
                  | None => None
                  end
            | EmptyString => None
            end
          else if Ascii.eqb c "n" then
            match strip "ull" s' with Some r => Some (JNull, r) | None => None end
          else if Ascii.eqb c "t" then
            match strip "rue" s' with Some r => Some (JBool true, r) | None => None end
          else if Ascii.eqb c "f" then
            match strip "alse" s' with Some r => Some (JBool false, r) | None => None end
          else if Ascii.eqb c "-" then
            match strip "Infinity" s' with
            | Some _ => None
            | None =>
                match scan_number s with
                | Some (z, r) => Some (JInt z, r)
                | None => None
                end
            end
          else
            match scan_number s with
            | Some (z, r) => Some (JInt z, r)
            | None => None
            end
      end
  end

with scan_items (fuel : nat) (s : string) : option (list json * string) :=
  match fuel with
  | O => None
  | S fuel' =>
      match scan_once fuel' s with
      | Some (v, r) =>
          match skip_ws r with
          | String c r' =>
              if Ascii.eqb c "]" then Some ([v], r')
              else if Ascii.eqb c "," then
                match scan_items fuel' (skip_ws r') with
                | Some (values, r'') => Some (v :: values, r'')
                | None => None
                end
              else None
          | EmptyString => None
          end
      | None => None
      end
  end

with scan_pairs (fuel : nat) (s : string) : option (list (string * json) * string) :=
  match fuel with
  | O => None
  | S fuel' =>
      match s with
      | String c s' =>
          if Ascii.eqb c dquote then
            match scanstring s' with
            | Some (k, r) =>
                match skip_ws r with
                | String c2 r2 =>
                    if Ascii.eqb c2 ":" then
                      match scan_once fuel' (skip_ws r2) with
                      | Some (v, r3) =>
                          match skip_ws r3 with
                          | String c4 r4 =>
                              if Ascii.eqb c4 "}" then Some ([(k, v)], r4)
                              else if Ascii.eqb c4 "," then
                                match scan_pairs fuel' (skip_ws r4) with
                                | Some (pairs, r5) => Some ((k, v) :: pairs, r5)
                                | None => None
                                end
                              else None
                          | EmptyString => None
                          end
                      | None => None
                      end
                    else None
                | EmptyString => None
                end
            | None => None
            end
          else None
      | EmptyString => None
      end
  end.

(** [json.loads(s)]: leading whitespace, one value, trailing whitespace and
    nothing more. *)
Definition loads (s : string) : option json :=
  match scan_once (String.length s) (skip_ws s) with
  | Some (v, r) =>
      match skip_ws r with
      | EmptyString => Some v
      | String _ _ => None
      end
  | None => None
  end.

End JsonLoads.

(** [DataRecord.response_json_as_dict] *)
Definition response_json_as_dict (r : DataRecord) : option json :=
  JsonLoads.loads (response_data r).


Module JsonLoadsText.
Import JsonLoads.

(** What follows a value inside a list or a mapping, or nothing. *)
Definition closed (r : string) : Prop :=
  match r with
  | EmptyString => True
  | String c _ => c = ","%char \/ c = "]"%char \/ c = "}"%char
  end.

Fixpoint all_digits (s : string) : bool :=
  match s with
  | EmptyString => true
  | String c s' => is_digit c && all_digits s'
  end.

(** The number a run of digits stands for, read onto [acc]. *)
Fixpoint value (p : string) (acc : N) : N :=
  match p with
  | String c p' =>
      value p' (10 * acc + match digit_value c with Some d => d | None => 0 end)%N
  | EmptyString => acc
  end.

(** The fuel that reads a value back: one for the value and one more for
    each item of a list or a mapping, over all levels. *)
Fixpoint cost (x : json) : nat :=
  match x with
  | JList l => S (list_sum (map (fun y => S (cost y)) l))
  | JDict d => S (list_sum (map (fun kv => S (cost (snd kv))) d))
  | _ => 1%nat
  end.

(** A value as a Python object holds it: the keys of every mapping are
    distinct. *)
Fixpoint well_formed (x : json) : bool :=
  match x with
  | JList l => forallb well_formed l
  | JDict d =>
      bool_decide (NoDup (map fst d)) && forallb (fun kv => well_formed (snd kv)) d
  | _ => true
  end.

(** A value is read back from the head of its text, whatever closes it,
    by any fuel from [cost] up. *)
Definition reads_back (x : json) : Prop :=
  well_formed x = true ->
  forall f r, (cost x <= f)%nat -> closed r ->
    scan_once f (Json.dumps x +:+ r) = Some (x, r).

End JsonLoadsText.

(** A state whose cache and store hold [completed_1]. *)
Definition cached_completed_1 : state (gmap string DataRecord) :=
  mkState (LRUDict.mk 256 [("c4ca4238a0b923820dcc509a6f75849b", completed_1)])
          store_completed_1.

(** A record of the key of [order_1] with a status the module does not
    know, and a store that holds it. *)
Definition unknown_1 : DataRecord :=
  mkDataRecord "c4ca4238a0b923820dcc509a6f75849b" "UNKNOWN" (Some 3700) ""
               (Some "3fbf839fa0e778a20326ddc34f5cd588").

Definition store_unknown_1 : gmap string DataRecord :=
  <["c4ca4238a0b923820dcc509a6f75849b" := unknown_1]> ∅.

(** * Properties *)

(** ** The digest and the serialisation on known values *)

(** The test suite of RFC 1321. *)
Example md5_empty : MD5.md5 EmptyString = "d41d8cd98f00b204e9800998ecf8427e".
Proof. vm_compute. reflexivity. Qed.

Example md5_a : MD5.md5 "a" = "0cc175b9c0f1b6a831c399e269772661".
Proof. vm_compute. reflexivity. Qed.

Example md5_abc : MD5.md5 "abc" = "900150983cd24fb0d6963f7d28e17f72".
Proof. vm_compute. reflexivity. Qed.

Example md5_message_digest :
  MD5.md5 "message digest" = "f96b697d7cb7938d525a2f31aaf161d0".
Proof. vm_compute. reflexivity. Qed.

Example md5_alphabet :
  MD5.md5 "abcdefghijklmnopqrstuvwxyz" = "c3fcd3d76192e4007dfb496cca67e13b".
Proof. vm_compute. reflexivity. Qed.

Example md5_digits :
  MD5.md5 "12345678901234567890123456789012345678901234567890123456789012345678901234567890"
  = "57edf4a22be3c955ac49da2e2107b67a".
Proof. vm_compute. reflexivity. Qed.

Example dumps_list :
  Json.dumps (JList [JInt 1; JNull; JBool true; JInt (-5); JList []])
  = "[1, null, true, -5, []]".
Proof. vm_compute. reflexivity. Qed.

Example dumps_dict :
  Json.dumps (JDict [("a", JInt 1); ("b", JInt 2)])
  = "{" +:+ String Json.dquote "a" +:+ String Json.dquote ": 1, "
        +:+ String Json.dquote "b" +:+ String Json.dquote ": 2}".
Proof. vm_compute. reflexivity. Qed.

Example dumps_escapes :
  Json.dumps (JStr (String (ascii_of_nat 10) (String (ascii_of_nat 233) "z")))
  = String Json.dquote (String Json.backslash "n" +:+ String Json.backslash "u00e9z"
                          +:+ String Json.dquote EmptyString).
Proof. vm_compute. reflexivity. Qed.

(** ** The derived status *)

Lemma in_values_spec (s : string) :
  in_values s = true <->
  s = STATUS_CONSTANTS.INPROGRESS \/ s = STATUS_CONSTANTS.COMPLETED
  \/ s = STATUS_CONSTANTS.EXPIRED.
Proof.
  unfold in_values, STATUS_CONSTANTS.values.
  rewrite bool_decide_eq_true, !elem_of_cons, elem_of_nil. tauto.
Qed.

Lemma is_expired_spec (r : DataRecord) (now : Z) :
  is_expired r now = true <->
  exists t, expiry_timestamp r = Some t /\ t <> 0 /\ t < now.
Proof.
  unfold is_expired. destruct (expiry_timestamp r) as [t|].
  - destruct (Z.eqb_spec t 0) as [->|Hne].
    + split; [discriminate|]. intros (t & [= <-] & Hz & _). congruence.
    + rewrite Z.ltb_lt. split.
      * intros Hlt. exists t. auto.
      * intros (t' & [= <-] & _ & Hlt). exact Hlt.
  - split; [discriminate|]. intros (t & Ht & _). discriminate.
Qed.

Lemma is_expired_mono (r : DataRecord) (now now' : Z) :
  now <= now' -> is_expired r now = true -> is_expired r now' = true.
Proof.
  rewrite !is_expired_spec. intros Hle (t & Ht & Hz & Hlt).
  exists t. repeat split; auto. lia.
Qed.

Lemma status_expired (r : DataRecord) (now : Z) :
  is_expired r now = true -> status r now = Return STATUS_CONSTANTS.EXPIRED.
Proof. unfold status. intros ->. reflexivity. Qed.

Lemma status_not_expired (r : DataRecord) (now : Z) :
  is_expired r now = false ->
  status r now =
    if in_values (_status r) then Return (_status r)
    else Raise (IdempotencyInvalidStatusError (_status r)).
Proof. unfold status. intros ->. reflexivity. Qed.

(** The derived status is [INPROGRESS] exactly for a record stored as
    [INPROGRESS] that has not expired. *)
Lemma status_inprogress (r : DataRecord) (now : Z) :
  status r now = Return STATUS_CONSTANTS.INPROGRESS <->
  _status r = STATUS_CONSTANTS.INPROGRESS /\ is_expired r now = false.
Proof.
  unfold status. destruct (is_expired r now).
  - split; [discriminate | intros [_ ?]; discriminate].
  - destruct (in_values (_status r)) eqn:Hin.
    + split; [intros [= ->]; auto | intros [-> _]; reflexivity].
    + split; [discriminate|]. intros [Hs _]. rewrite Hs in Hin. discriminate.
Qed.

(** C1, as the code has it: reading the status raises exactly when the
    record has not expired and its stored status is none of the three
    constants, and the error carries the stored status.  A record that has
    expired, that is whose expiry timestamp is set, not [0] and less than
    [now], reads as [EXPIRED] whatever is stored. *)
Theorem status_raises_iff (r : DataRecord) (now : Z) (e : exn) :
  (status r now = Raise e <->
   is_expired r now = false /\ in_values (_status r) = false
   /\ e = IdempotencyInvalidStatusError (_status r))
  /\ (is_expired r now = true -> status r now = Return STATUS_CONSTANTS.EXPIRED)
  /\ (forall t, expiry_timestamp r = Some t -> t <> 0 -> t < now ->
        status r now = Return STATUS_CONSTANTS.EXPIRED).
Proof.
  split; [|split].
  - unfold status. destruct (is_expired r now).
    + split; [discriminate | intros [? _]; discriminate].
    + destruct (in_values (_status r)).
      * split; [discriminate | intros (_ & ? & _); discriminate].
      * split.
        -- intros [= <-]. auto.
        -- intros (_ & _ & ->). reflexivity.
  - apply status_expired.
  - intros t Ht Hnz Hlt. apply status_expired, is_expired_spec. exists t. auto.
Qed.

Lemma status_raises_iff_witness :
  status (mkDataRecord "k" "UNKNOWN" (Some 10) "" None) 2
  = Raise (IdempotencyInvalidStatusError "UNKNOWN")
  /\ status (mkDataRecord "k" "INPROGRESS" (Some 10) "" None) 11
     = Return STATUS_CONSTANTS.EXPIRED.
Proof.
  split.
  - apply (proj1 (status_raises_iff (mkDataRecord "k" "UNKNOWN" (Some 10) "" None) 2
                    (IdempotencyInvalidStatusError "UNKNOWN"))).
    repeat split.
  - apply (proj2 (proj2 (status_raises_iff (mkDataRecord "k" "INPROGRESS" (Some 10) "" None)
                           11 IdempotencyItemNotFoundError)) 10);
      [reflexivity | lia | lia].
Defined.

(** C1 fails as stated: a record stored with a status outside the known
    ones, read after its expiry timestamp, reads as [EXPIRED] and raises
    nothing. *)
Lemma status_unknown_expired_reads_expired :
  _status (mkDataRecord "k" "UNKNOWN" (Some 1) "" None) <> STATUS_CONSTANTS.INPROGRESS
  /\ _status (mkDataRecord "k" "UNKNOWN" (Some 1) "" None) <> STATUS_CONSTANTS.COMPLETED
  /\ status (mkDataRecord "k" "UNKNOWN" (Some 1) "" None) 2
     = Return STATUS_CONSTANTS.EXPIRED.
Proof. repeat split; discriminate. Qed.

(** C3, as the code has it.  For a record whose expiry timestamp is not
    [0]: when the stored status is one of the three constants the [status]
    property is [effectiveStatus]; a timestamp that is set and less than
    [now] gives [EXPIRED] whatever is stored; without a timestamp the
    derived status is [EXPIRED] only for a record stored as [EXPIRED]; and
    a stored status outside the constants raises once the record is not
    past its timestamp. *)
Theorem status_is_effectiveStatus (r : DataRecord) (now : Z) :
  expiry_timestamp r <> Some 0 ->
  (in_values (_status r) = true -> status r now = Return (effectiveStatus r now))
  /\ (forall t, expiry_timestamp r = Some t -> t < now ->
        status r now = Return STATUS_CONSTANTS.EXPIRED)
  /\ (expiry_timestamp r = None ->
        is_expired r now = false
        /\ (status r now = Return STATUS_CONSTANTS.EXPIRED ->
            _status r = STATUS_CONSTANTS.EXPIRED))
  /\ (in_values (_status r) = false -> is_expired r now = false ->
        status r now = Raise (IdempotencyInvalidStatusError (_status r))).
Proof.
  intros Hnz. unfold status, effectiveStatus, is_expired.
  destruct (expiry_timestamp r) as [t|].
  - destruct (Z.eqb_spec t 0) as [->|_]; [congruence|].
    rewrite Z.gtb_ltb. repeat split.
    + intros Hin. destruct (t <? now); [reflexivity|]. rewrite Hin. reflexivity.
    + intros t' [= <-] Hlt. apply Z.ltb_lt in Hlt. rewrite Hlt. reflexivity.
    + discriminate.
    + discriminate.
    + intros Hin ->. rewrite Hin. reflexivity.
  - repeat split.
    + intros ->. reflexivity.
    + discriminate.
    + destruct (in_values (_status r)); [|discriminate]. intros [= ->]. reflexivity.
    + intros ->. reflexivity.
Qed.

Lemma status_is_effectiveStatus_witness :
  status (mkDataRecord "k" "COMPLETED" (Some 10) "" None) 11
    = Return (effectiveStatus (mkDataRecord "k" "COMPLETED" (Some 10) "" None) 11)
  /\ status (mkDataRecord "k" "COMPLETED" (Some 10) "" None) 11
    = Return STATUS_CONSTANTS.EXPIRED.
Proof.
  pose proof (status_is_effectiveStatus
                (mkDataRecord "k" "COMPLETED" (Some 10) "" None) 11) as Hthm.
  destruct Hthm as (Ha & Hb & _); [discriminate|].
  split.
  - apply Ha. reflexivity.
  - apply (Hb 10); [reflexivity | lia].
Defined.

(** C3 fails as stated: a record that has no expiry timestamp and a stored
    status outside the constants has no derived status at all, the read
    raises. *)
Lemma status_unknown_is_not_raw :
  expiry_timestamp (mkDataRecord "k" "UNKNOWN" None "" None) = None
  /\ status (mkDataRecord "k" "UNKNOWN" None "" None) 100
     = Raise (IdempotencyInvalidStatusError "UNKNOWN").
Proof. split; reflexivity. Qed.

(** The truthiness test in [is_expired] takes the timestamp [0] for a
    missing one. *)
Example is_expired_zero :
  is_expired (mkDataRecord "k" "COMPLETED" (Some 0) "" None) 100 = false.
Proof. reflexivity. Qed.

(** ** The text [json.dumps] writes *)

Module JsonFacts.

Import Json JsonText.

#[local] Arguments String.append !_ _ / : simpl nomatch.

Lemma app_cons (c : ascii) (s t : string) : String c s +:+ t = String c (s +:+ t).
Proof. reflexivity. Qed.

Lemma app_nil_l (s : string) : EmptyString +:+ s = s.
Proof. reflexivity. Qed.

Lemma app_nil_r (s : string) : s +:+ EmptyString = s.
Proof.
  induction s as [|c s IH]; [reflexivity|]. rewrite app_cons, IH. reflexivity.
Qed.

Lemma app_assoc (a b c : string) : (a +:+ b) +:+ c = a +:+ (b +:+ c).
Proof.
  induction a as [|x a IH]; [reflexivity|]. rewrite !app_cons, IH. reflexivity.
Qed.

Lemma all_number_app a b : all_number (a +:+ b) = all_number a && all_number b.
Proof.
  induction a as [|c a IH]; simpl; [reflexivity|].
  rewrite IH. apply andb_assoc.
Qed.

Lemma number_split p1 p2 r1 r2 :
  all_number p1 = true -> all_number p2 = true ->
  delimited r1 -> delimited r2 ->
  p1 +:+ r1 = p2 +:+ r2 -> p1 = p2 /\ r1 = r2.
Proof.
  revert p2. induction p1 as [|c1 p1 IH]; intros [|c2 p2]; simpl.
  - auto.
  - intros _ Hp2 Hr1 _ ->. apply andb_true_iff in Hp2 as [Hc _].
    simpl in Hr1. congruence.
  - intros Hp1 _ _ Hr2 <-. apply andb_true_iff in Hp1 as [Hc _].
    simpl in Hr2. congruence.
  - intros Hp1 Hp2 Hr1 Hr2 [= -> Heq].
    apply andb_true_iff in Hp1 as [_ Hp1]. apply andb_true_iff in Hp2 as [_ Hp2].
    destruct (IH p2 Hp1 Hp2 Hr1 Hr2 Heq) as [-> ->]. auto.
Qed.

Lemma pretty_N_char_number x : number_char (pretty_N_char x) = true.
Proof. unfold pretty_N_char. repeat case_match; reflexivity. Qed.

Lemma pretty_N_go_number x s :
  exists p, pretty_N_go x s = p +:+ s /\ all_number p = true
            /\ ((0 < x)%N -> p <> EmptyString).
Proof.
  revert s. induction (N.lt_wf_0 x) as [x _ IH]. intros s.
  assert (x = 0 \/ 0 < x)%N as [->|Hpos] by lia.
  - exists EmptyString. rewrite pretty_N_go_0.
    split; [reflexivity | split; [reflexivity | lia]].
  - rewrite pretty_N_go_step by exact Hpos.
    destruct (IH (x `div` 10)%N (N.div_lt x 10 Hpos eq_refl)
                 (String (pretty_N_char (x `mod` 10)) s)) as (p & Hp & Hnum & _).
    exists (p +:+ String (pretty_N_char (x `mod` 10)) EmptyString).
    rewrite Hp, app_assoc. simpl. repeat split.
    + rewrite all_number_app, Hnum. simpl. rewrite pretty_N_char_number. reflexivity.
    + intros _. destruct p; discriminate.
Qed.

Lemma pretty_Z_number (z : Z) :
  all_number (pretty z) = true /\ pretty z <> EmptyString.
Proof.
  assert (forall p : positive,
            all_number (pretty (N.pos p)) = true /\ pretty (N.pos p) <> EmptyString) as Hpos.
  { intros p. unfold pretty, pretty_N. rewrite decide_False by discriminate.
    destruct (pretty_N_go_number (N.pos p) EmptyString) as (q & Hq & Hnum & Hne).
    rewrite Hq, app_nil_r. split; [exact Hnum | apply Hne; lia]. }
  destruct z as [|p|p]; unfold pretty, pretty_Z.
  - split; [reflexivity | discriminate].
  - apply Hpos.
  - split; [|discriminate]. simpl. apply Hpos.
Qed.


(** *** Strings *)

Lemma unescape_escape_char (c : ascii) (r : string) :
  unescape_char (escape_char c +:+ r) = Some (c, r).
Proof. destruct c as [[] [] [] [] [] [] [] []]; reflexivity. Qed.

Lemma escape_split s1 s2 r1 r2 :
  escape s1 +:+ String dquote r1 = escape s2 +:+ String dquote r2 ->
  s1 = s2 /\ r1 = r2.
Proof.
  revert s2. induction s1 as [|c1 s1 IH]; intros [|c2 s2]; simpl.
  - intros [= ->]. auto.
  - rewrite app_assoc. intros Heq. apply (f_equal unescape_char) in Heq.
    rewrite unescape_escape_char in Heq. discriminate.
  - rewrite app_assoc. intros Heq. apply (f_equal unescape_char) in Heq.
    rewrite unescape_escape_char in Heq. discriminate.
  - rewrite !app_assoc. intros Heq. apply (f_equal unescape_char) in Heq.
    rewrite !unescape_escape_char in Heq. injection Heq as -> Heq.
    destruct (IH _ Heq) as [-> ->]. auto.
Qed.

Lemma encode_app s r :
  encode_basestring_ascii s +:+ r = String dquote (escape s +:+ String dquote r).
Proof. unfold encode_basestring_ascii. simpl. rewrite app_assoc. reflexivity. Qed.

Lemma encode_split s1 s2 r1 r2 :
  encode_basestring_ascii s1 +:+ r1 = encode_basestring_ascii s2 +:+ r2 ->
  s1 = s2 /\ r1 = r2.
Proof. rewrite !encode_app. intros [= Heq]. apply (escape_split _ _ _ _ Heq). Qed.

(** *** The first character of a value *)

Lemma opens_dumps (x : json) (r : string) : opens (dumps x +:+ r) = kind x.
Proof.
  destruct x as [|[]|z|s|l|d]; try reflexivity.
  simpl. destruct (pretty_Z_number z) as [Hnum Hne].
  destruct (pretty z) as [|c p]; [contradiction|].
  simpl in *. apply andb_true_iff in Hnum as [-> _]. reflexivity.
Qed.


(** *** Sequences of items between brackets *)

Section Sequence.

Variable A : Type.
Variable item : A -> string.
Variable close : ascii.

Hypothesis close_delimits : number_char close = false.
Hypothesis close_not_comma : close <> ","%char.
Hypothesis close_opens : forall r, opens (String close r) = 0%N.
Hypothesis item_opens : forall x r, opens (item x +:+ r) <> 0%N.

#[local] Abbreviation more := (JsonText.more A item close).
#[local] Abbreviation body := (JsonText.body A item close).
#[local] Abbreviation readable := (JsonText.readable A item).

Lemma concat_more (x : A) (l : list A) (r : string) :
  String.concat ", " (map item (x :: l)) +:+ String close r = item x +:+ more l r.
Proof.
  revert x. induction l as [|y l IH]; intros x; [reflexivity|].
  change (String.concat ", " (map item (x :: y :: l)))
    with (item x +:+ ", " +:+ String.concat ", " (map item (y :: l))).
  rewrite !app_assoc, IH. reflexivity.
Qed.

Lemma concat_body (l : list A) (r : string) :
  (String.concat ", " (map item l) +:+ String close EmptyString) +:+ r = body l r.
Proof.
  destruct l as [|x l]; [reflexivity|].
  rewrite app_assoc. apply concat_more.
Qed.

Lemma more_delimited (l : list A) (r : string) : delimited (more l r).
Proof. destruct l; simpl; [exact close_delimits | reflexivity]. Qed.

Lemma more_split (l1 : list A) :
  Forall readable l1 ->
  forall l2 r1 r2, more l1 r1 = more l2 r2 -> l1 = l2 /\ r1 = r2.
Proof.
  induction 1 as [|x l1 Hx Hl1 IH]; intros [|y l2] r1 r2; simpl.
  - intros [= ->]. auto.
  - intros [= Hc _]. contradiction.
  - intros [= Hc _]. symmetry in Hc. contradiction.
  - intros [= Heq].
    destruct (Hx y _ _ (more_delimited l1 r1) (more_delimited l2 r2) Heq) as [-> Hrest].
    destruct (IH _ _ _ Hrest) as [-> ->]. auto.
Qed.

Lemma body_split (l1 : list A) :
  Forall readable l1 ->
  forall l2 r1 r2, body l1 r1 = body l2 r2 -> l1 = l2 /\ r1 = r2.
Proof.
  intros Hall [|y l2] r1 r2; destruct Hall as [|x l1 Hx Hl1]; simpl.
  - intros [= ->]. auto.
  - intros Heq. apply (f_equal opens) in Heq. rewrite close_opens in Heq.
    exfalso. apply (item_opens _ _ Heq).
  - intros Heq. apply (f_equal opens) in Heq. rewrite close_opens in Heq.
    exfalso. symmetry in Heq. apply (item_opens _ _ Heq).
  - intros Heq.
    destruct (Hx y _ _ (more_delimited l1 r1) (more_delimited l2 r2) Heq) as [-> Hrest].
    destruct (more_split l1 Hl1 _ _ _ Hrest) as [-> ->]. auto.
Qed.

End Sequence.

(** *** [json.dumps] is one-to-one *)

Lemma entry_opens kv r : opens (entry kv +:+ r) <> 0%N.
Proof. unfold entry. rewrite app_assoc, encode_app. discriminate. Qed.

Lemma dumps_opens x r : opens (dumps x +:+ r) <> 0%N.
Proof. rewrite opens_dumps. destruct x as [|[]| | | |]; discriminate. Qed.

(** A value can be read back from the head of a delimited text. *)
Lemma dumps_split (x : json) :
  forall y r1 r2, delimited r1 -> delimited r2 ->
    dumps x +:+ r1 = dumps y +:+ r2 -> x = y /\ r1 = r2.
Proof.
  induction x as [|b|z|s|l IH|d IH] using json_induction;
    intros y r1 r2 Hr1 Hr2 Heq;
    pose proof (f_equal opens Heq) as Hk; rewrite !opens_dumps in Hk;
    destruct y as [|b'|z'|s'|l'|d']; try (destruct b); try (destruct b');
    try discriminate Hk; clear Hk.
  - simpl in Heq. injection Heq as ->. auto.
  - simpl in Heq. injection Heq as ->. auto.
  - simpl in Heq. injection Heq as ->. auto.
  - simpl in Heq.
    destruct (pretty_Z_number z) as [Hz _]. destruct (pretty_Z_number z') as [Hz' _].
    destruct (number_split _ _ _ _ Hz Hz' Hr1 Hr2 Heq) as [Hp ->].
    apply (inj pretty) in Hp. subst. auto.
  - simpl in Heq. destruct (encode_split _ _ _ _ Heq) as [-> ->]. auto.
  - simpl in Heq. injection Heq as Heq.
    rewrite !(concat_body json dumps "]") in Heq.
    destruct (body_split json dumps "]" eq_refl ltac:(discriminate)
                (fun _ => eq_refl) dumps_opens l IH _ _ _ Heq) as [-> ->].
    auto.
  - simpl in Heq. injection Heq as Heq.
    change (fun kv : string * json =>
              encode_basestring_ascii (fst kv) +:+ ": " +:+ dumps (snd kv))
      with entry in Heq.
    rewrite !(concat_body _ entry "}") in Heq.
    assert (Forall (readable _ entry) d) as Hall.
    { eapply Forall_impl; [exact IH|]. intros [k v] Hv [k' v'] q1 q2 Hq1 Hq2. cbn [snd] in Hv.
      unfold entry. cbn [fst snd]. rewrite !app_assoc. intros Hkv.
      destruct (encode_split _ _ _ _ Hkv) as [-> Hv'].
      simpl in Hv'. injection Hv' as Hv'.
      destruct (Hv _ _ _ Hq1 Hq2 Hv') as [-> ->]. auto. }
    destruct (body_split _ entry "}" eq_refl ltac:(discriminate)
                (fun _ => eq_refl) entry_opens d Hall _ _ _ Heq) as [-> ->].
    auto.
Qed.

Lemma dumps_inj (x y : json) : dumps x = dumps y -> x = y.
Proof.
  intros Heq.
  destruct (dumps_split x y EmptyString EmptyString I I) as [Hxy _]; [|exact Hxy].
  rewrite !app_nil_r. exact Heq.
Qed.

End JsonFacts.

(** ** Hashing *)

Section Hashing.

Variable jmespath_search : string -> json -> json.
Variable self : BasePersistenceLayer.

Lemma get_hashed_payload_disabled (ev : json) :
  payload_validation_enabled self = false ->
  _get_hashed_payload jmespath_search self ev = EmptyString.
Proof. unfold _get_hashed_payload. intros ->. reflexivity. Qed.


(** C6: [_validate_payload] raises [IdempotencyValidationError] if and
    only if payload validation is enabled and the hash of the payload of
    the event differs from the [payload_hash] of the record, and returns
    otherwise; with validation disabled [_get_hashed_payload] is the
    empty string and nothing is raised. *)
Theorem validate_payload_raises_iff (ev : json) (r : DataRecord) :
  (_validate_payload jmespath_search self ev r
     = Raise (IdempotencyValidationError validation_message)
   <-> payload_validation_enabled self = true
       /\ payload_hash r <> Some (_get_hashed_payload jmespath_search self ev))
  /\ (_validate_payload jmespath_search self ev r = Return tt
      <-> ~ (payload_validation_enabled self = true
             /\ payload_hash r <> Some (_get_hashed_payload jmespath_search self ev)))
  /\ (payload_validation_enabled self = false ->
      _get_hashed_payload jmespath_search self ev = EmptyString
      /\ forall ev' r', _validate_payload jmespath_search self ev' r' = Return tt).
Proof.
  unfold _validate_payload.
  destruct (payload_validation_enabled self) eqn:Hen.
  - destruct (bool_decide_reflect
                (payload_hash r = Some (_get_hashed_payload jmespath_search self ev)))
      as [Heq|Hne].
    + split; [|split].
      * split; [discriminate | intros [_ Hne]; contradiction].
      * split; [intros _ [_ Hne]; contradiction | reflexivity].
      * discriminate.
    + split; [|split].
      * split; [auto | reflexivity].
      * split; [discriminate | intros Hn; exfalso; apply Hn; auto].
      * discriminate.
  - split; [|split].
    + split; [discriminate | intros [? _]; discriminate].
    + split; [intros _ [? _]; discriminate | reflexivity].
    + intros _. split; [apply get_hashed_payload_disabled; exact Hen | reflexivity].
Qed.

(** C7: when a key query is configured and matches nothing in the event,
    so that the search yields [None], the idempotency key is the digest
    of the text [null]; two events on which the query matches nothing get
    the same key. *)
Theorem hashed_key_of_no_match (ev1 ev2 : json) :
  truthy (event_key_jmespath self) = true ->
  jmespath_search (event_key_jmespath self) ev1 = JNull ->
  jmespath_search (event_key_jmespath self) ev2 = JNull ->
  _get_hashed_idempotency_key jmespath_search self ev1 = hash_function self "null"
  /\ _get_hashed_idempotency_key jmespath_search self ev1
     = _get_hashed_idempotency_key jmespath_search self ev2.
Proof.
  intros Hq H1 H2. unfold _get_hashed_idempotency_key.
  rewrite Hq, H1, H2. split; reflexivity.
Qed.

End Hashing.

Lemma hashed_key_of_no_match_witness :
  _get_hashed_idempotency_key search_identifier (layer "order_id" "" false)
    (JDict [("user", JStr "ann")])
    = hash_function (layer "order_id" "" false) "null"
  /\ _get_hashed_idempotency_key search_identifier (layer "order_id" "" false)
       (JDict [("user", JStr "ann")])
     = _get_hashed_idempotency_key search_identifier (layer "order_id" "" false)
         (JDict [("user", JStr "bob"); ("amount", JInt 7)]).
Proof.
  apply (hashed_key_of_no_match search_identifier (layer "order_id" "" false)
           (JDict [("user", JStr "ann")])
           (JDict [("user", JStr "bob"); ("amount", JInt 7)])); reflexivity.
Defined.

(** C2, as the code has it: the digest is [hash_function] of the text
    [json.dumps] writes, so hashing a value twice gives the same digest;
    and [json.dumps], which writes the keys of a mapping in their insertion
    order, writes two values as the same text exactly when they are the
    same value, key order included. *)
Theorem generate_hash_by_text (self : BasePersistenceLayer) (x y : json) :
  _generate_hash self x = hash_function self (Json.dumps x)
  /\ (Json.dumps x = Json.dumps y <-> x = y).
Proof.
  split; [reflexivity|]. split.
  - apply JsonFacts.dumps_inj.
  - intros ->. reflexivity.
Qed.

(** C2 fails as stated: [json.dumps] is called without [sort_keys], so the
    same mapping built in another order is another text and, under md5,
    another digest. *)
Lemma generate_hash_depends_on_key_order :
  reordered (JDict [("a", JInt 1); ("b", JInt 2)]) (JDict [("b", JInt 2); ("a", JInt 1)])
  /\ _generate_hash (layer "" "" false) (JDict [("a", JInt 1); ("b", JInt 2)])
     = "8aacdb17187e6acf2b175d4aa08d7213"
  /\ _generate_hash (layer "" "" false) (JDict [("b", JInt 2); ("a", JInt 1)])
     = "5f23edf1d0f5fc5639ccde2e01b24da1"
  /\ _generate_hash (layer "" "" false) (JDict [("a", JInt 1); ("b", JInt 2)])
     <> _generate_hash (layer "" "" false) (JDict [("b", JInt 2); ("a", JInt 1)]).
Proof.
  split; [|split; [|split]].
  - repeat split.
    + apply (bool_decide_unpack _). vm_compute. exact I.
    + discriminate.
    + apply perm_swap.
  - vm_compute. reflexivity.
  - vm_compute. reflexivity.
  - vm_compute. discriminate.
Qed.

(** ** The local cache *)

Module LRUDictFacts.
Import LRUDict.

Lemma lookup_remove_eq k l : lookup k (remove k l) = None.
Proof.
  induction l as [|[k' v] l IH]; simpl; [reflexivity|].
  destruct (String.eqb_spec k' k) as [->|Hne]; [exact IH|].
  simpl. destruct (String.eqb_spec k' k); [contradiction | exact IH].
Qed.

Lemma lookup_remove_ne k k' l : k <> k' -> lookup k' (remove k l) = lookup k' l.
Proof.
  intros Hne. induction l as [|[k0 v] l IH]; simpl; [reflexivity|].
  destruct (String.eqb_spec k0 k) as [->|Hk0].
  - destruct (String.eqb_spec k k'); [contradiction | exact IH].
  - simpl. rewrite IH. reflexivity.
Qed.

Lemma lookup_app k l1 l2 :
  lookup k (l1 ++ l2) =
    match lookup k l1 with Some v => Some v | None => lookup k l2 end.
Proof.
  induction l1 as [|[k' v] l1 IH]; simpl; [reflexivity|].
  destruct (String.eqb k' k); [reflexivity | exact IH].
Qed.

Lemma remove_absent k l : lookup k l = None -> remove k l = l.
Proof.
  induction l as [|[k' v] l IH]; simpl; [reflexivity|].
  destruct (String.eqb k' k); [discriminate|].
  intros Hl. rewrite (IH Hl). reflexivity.
Qed.

Lemma remove_app k l1 l2 : remove k (l1 ++ l2) = remove k l1 ++ remove k l2.
Proof.
  induction l1 as [|[k' v] l1 IH]; simpl; [reflexivity|].
  destruct (String.eqb k' k); [exact IH|]. simpl. rewrite IH. reflexivity.
Qed.

Lemma remove_moved k v l : remove k (remove k l ++ [(k, v)]) = remove k l.
Proof.
  rewrite remove_app, (remove_absent k (remove k l)) by apply lookup_remove_eq.
  simpl. rewrite String.eqb_refl. apply app_nil_r.
Qed.

Lemma lookup_moved k v l : lookup k (remove k l ++ [(k, v)]) = Some v.
Proof.
  rewrite lookup_app, lookup_remove_eq. simpl. rewrite String.eqb_refl. reflexivity.
Qed.

(** What was just written is there, as long as the cache holds one entry
    at least. *)
Lemma lookup_setitem_eq k v d :
  1 <= max_items d -> lookup k (items (setitem k v d)) = Some v.
Proof.
  intros Hmax. unfold setitem. simpl.
  destruct (Z.ltb_spec (max_items d) (Z.of_nat (length (remove k (items d) ++ [(k, v)]))))
    as [Hlt|_]; [|apply lookup_moved].
  pose proof (lookup_remove_eq k (items d)) as Habs.
  destruct (remove k (items d)) as [|[k' v'] l]; simpl in *; [lia|].
  destruct (String.eqb k' k); [discriminate|].
  rewrite lookup_app, Habs. simpl. rewrite String.eqb_refl. reflexivity.
Qed.

Lemma lookup_elem_of k v l : lookup k l = Some v -> (k, v) ∈ l.
Proof.
  induction l as [|[k' v'] l IH]; simpl; [discriminate|].
  destruct (String.eqb_spec k' k) as [->|_].
  - intros [= ->]. apply list_elem_of_here.
  - intros Hl. apply list_elem_of_further, IH, Hl.
Qed.

Lemma Forall_remove P k l : Forall P l -> Forall P (remove k l).
Proof.
  induction 1 as [|[k' v] l Hx Hl IH]; simpl; [constructor|].
  destruct (String.eqb k' k); [exact IH | constructor; assumption].
Qed.

Lemma Forall_tail {A} (P : A -> Prop) (l : list A) : Forall P l -> Forall P (tail l).
Proof. destruct 1; simpl; [constructor | assumption]. Qed.

(** A property of the entries holds after a write when it holds of the
    entry written and of the entries of the other keys. *)
Lemma Forall_setitem_other P k v d :
  Forall P (remove k (items d)) -> P (k, v) -> Forall P (items (setitem k v d)).
Proof.
  intros Hall Hv. unfold setitem. simpl.
  assert (Forall P (remove k (items d) ++ [(k, v)])) as Hl.
  { apply Forall_app. split; [exact Hall | repeat constructor; exact Hv]. }
  destruct (max_items d <? _); [apply Forall_tail|]; exact Hl.
Qed.

Lemma Forall_setitem P k v d :
  Forall P (items d) -> P (k, v) -> Forall P (items (setitem k v d)).
Proof. intros Hall. apply Forall_setitem_other, Forall_remove, Hall. Qed.

End LRUDictFacts.

Section CacheProtocol.

Variable jmespath_search : string -> json -> json.
Context {S : Type} `{PersistenceStore S}.
Variable self : BasePersistenceLayer.

Lemma save_to_cache_disabled now r (st : state S) :
  use_local_cache self = false -> _save_to_cache self now r st = (Return tt, st).
Proof. unfold _save_to_cache. intros ->. reflexivity. Qed.

Lemma save_to_cache_stores now r s (st : state S) :
  use_local_cache self = true ->
  status r now = Return s ->
  s <> STATUS_CONSTANTS.INPROGRESS ->
  _save_to_cache self now r st
  = (Return tt, mkState (LRUDict.setitem (idempotency_key r) r (_cache st)) (store st)).
Proof.
  intros Hc Hs Hne. unfold _save_to_cache. rewrite Hc. simpl.
  unfold bind, lift. rewrite Hs.
  destruct (String.eqb_spec s STATUS_CONSTANTS.INPROGRESS); [contradiction | reflexivity].
Qed.

Lemma save_to_cache_raises now r e (st : state S) :
  use_local_cache self = true ->
  status r now = Raise e ->
  _save_to_cache self now r st = (Raise e, st).
Proof.
  intros Hc Hs. unfold _save_to_cache. rewrite Hc. simpl.
  unfold bind, lift. rewrite Hs. reflexivity.
Qed.


(** C4, as the code has it: [_save_to_cache] tests the derived status.  A
    record stored as [INPROGRESS] that has not expired when it is saved
    leaves the cache, and the whole state, as it was.  One that has expired
    reads as [EXPIRED]: with the cache in use it is written under its key,
    and is the entry of that key when the cache has room for one item;
    without the cache nothing is written. *)
Theorem save_to_cache_skips_inprogress now r (st : state S) :
  _status r = STATUS_CONSTANTS.INPROGRESS ->
  (is_expired r now = false -> _save_to_cache self now r st = (Return tt, st))
  /\ (is_expired r now = true ->
      status r now = Return STATUS_CONSTANTS.EXPIRED
      /\ (use_local_cache self = true ->
          _save_to_cache self now r st
          = (Return tt,
             mkState (LRUDict.setitem (idempotency_key r) r (_cache st)) (store st))
          /\ (1 <= LRUDict.max_items (_cache st) ->
              LRUDict.lookup (idempotency_key r)
                (LRUDict.items (LRUDict.setitem (idempotency_key r) r (_cache st)))
              = Some r))
      /\ (use_local_cache self = false ->
          _save_to_cache self now r st = (Return tt, st))).
Proof.
  intros Hraw. split.
  - intros Hexp.
    assert (status r now = Return STATUS_CONSTANTS.INPROGRESS) as Hs
      by (apply status_inprogress; auto).
    unfold _save_to_cache.
    destruct (use_local_cache self); simpl; [|reflexivity].
    unfold bind, lift. rewrite Hs. reflexivity.
  - intros Hexp.
    pose proof (status_expired r now Hexp) as Hs.
    split; [exact Hs|]. split.
    + intros Hc. split.
      * apply (save_to_cache_stores now r _ st Hc Hs). discriminate.
      * apply LRUDictFacts.lookup_setitem_eq.
    + apply save_to_cache_disabled.
Qed.

Lemma delete_from_cache_absent k (st : state S) :
  use_local_cache self = true ->
  LRUDict.lookup k (LRUDict.items (_cache st)) = None ->
  _delete_from_cache self k st = (Raise (KeyError k), st).
Proof.
  intros Hc Hl. unfold _delete_from_cache. rewrite Hc. simpl.
  unfold on_cache, LRUDict.delitem. rewrite Hl. destruct st. reflexivity.
Qed.

Lemma delete_from_cache_present k r (st : state S) :
  use_local_cache self = true ->
  LRUDict.lookup k (LRUDict.items (_cache st)) = Some r ->
  _delete_from_cache self k st = (Return tt, evicted k st).
Proof.
  intros Hc Hl. unfold _delete_from_cache. rewrite Hc. simpl.
  unfold on_cache, LRUDict.delitem. rewrite Hl. reflexivity.
Qed.

Lemma retrieve_from_cache_miss now k (st : state S) :
  use_local_cache self = true ->
  LRUDict.lookup k (LRUDict.items (_cache st)) = None ->
  _retrieve_from_cache self now k st = (Return None, st).
Proof.
  intros Hc Hl. unfold _retrieve_from_cache. rewrite Hc. simpl.
  unfold bind, on_cache, LRUDict.get. rewrite Hl. destruct st. reflexivity.
Qed.

Lemma retrieve_from_cache_is_expired now k r (st : state S) :
  use_local_cache self = true ->
  LRUDict.lookup k (LRUDict.items (_cache st)) = Some r ->
  is_expired r now = true ->
  _retrieve_from_cache self now k st = (Return None, evicted k st).
Proof.
  intros Hc Hl Hexp.
  unfold _retrieve_from_cache. rewrite Hc. simpl.
  unfold bind, on_cache, LRUDict.get. rewrite Hl. simpl. rewrite Hexp. simpl.
  unfold _delete_from_cache. rewrite Hc. simpl.
  unfold on_cache, LRUDict.delitem. simpl.
  rewrite LRUDictFacts.lookup_moved. simpl.
  unfold evicted. rewrite LRUDictFacts.remove_moved. reflexivity.
Qed.

Lemma retrieve_from_cache_hit now k r (st : state S) :
  use_local_cache self = true ->
  LRUDict.lookup k (LRUDict.items (_cache st)) = Some r ->
  is_expired r now = false ->
  _retrieve_from_cache self now k st
  = (Return (Some r),
     mkState (LRUDict.mk (LRUDict.max_items (_cache st))
                (LRUDict.remove k (LRUDict.items (_cache st)) ++ [(k, r)]))
             (store st)).
Proof.
  intros Hc Hl Hexp.
  unfold _retrieve_from_cache. rewrite Hc. simpl.
  unfold bind, on_cache, LRUDict.get. rewrite Hl. simpl. rewrite Hexp. reflexivity.
Qed.

(** C9, as the code has it: the cache read tests [is_expired], not the
    status.  A cached record that has expired is evicted, whatever is
    stored as its status: the read returns [None] and leaves the cache
    without an entry for the key.  A record whose derived status is
    [EXPIRED] and which is not stored under the status [EXPIRED] has
    expired.  A record that has not expired is returned, and becomes the
    most recently used entry. *)
Theorem retrieve_from_cache_evicts_expired now k r (st : state S) :
  use_local_cache self = true ->
  LRUDict.lookup k (LRUDict.items (_cache st)) = Some r ->
  (is_expired r now = true ->
   _retrieve_from_cache self now k st = (Return None, evicted k st)
   /\ LRUDict.lookup k (LRUDict.items (_cache (evicted k st))) = None)
  /\ (status r now = Return STATUS_CONSTANTS.EXPIRED ->
      _status r <> STATUS_CONSTANTS.EXPIRED ->
      is_expired r now = true)
  /\ (is_expired r now = false ->
      _retrieve_from_cache self now k st
      = (Return (Some r),
         mkState (LRUDict.mk (LRUDict.max_items (_cache st))
                    (LRUDict.remove k (LRUDict.items (_cache st)) ++ [(k, r)]))
                 (store st))).
Proof.
  intros Hc Hl. split; [|split].
  - intros Hexp. split.
    + apply (retrieve_from_cache_is_expired now k r st Hc Hl Hexp).
    + apply LRUDictFacts.lookup_remove_eq.
  - intros Hs Hraw.
    destruct (is_expired r now) eqn:E; [reflexivity|].
    rewrite (status_not_expired _ _ E) in Hs.
    destruct (in_values (_status r)); [|discriminate].
    injection Hs as Hs. contradiction.
  - apply (retrieve_from_cache_hit now k r st Hc Hl).
Qed.

End CacheProtocol.

(** ** The public methods *)

Section Methods.

Variable jmespath_search : string -> json -> json.
Context {S : Type} `{PersistenceStore S}.
Variable self : BasePersistenceLayer.

(** With the local cache enabled, [delete_record] raises [KeyError]
    whenever the store has deleted and the cache has no entry for the
    key. *)
Lemma delete_record_uncached now ev (st : state S) s' :
  use_local_cache self = true ->
  LRUDict.lookup (_get_hashed_idempotency_key jmespath_search self ev)
                 (LRUDict.items (_cache st)) = None ->
  _delete_record
    (DataRecord_default (_get_hashed_idempotency_key jmespath_search self ev))
    now (store st) = (Return tt, s') ->
  delete_record jmespath_search self now ev st
  = (Raise (KeyError (_get_hashed_idempotency_key jmespath_search self ev)),
     mkState (_cache st) s').
Proof.
  intros Hc Hl Hdel. unfold delete_record, bind, on_store. rewrite Hdel. simpl.
  apply delete_from_cache_absent; assumption.
Qed.

Lemma delete_record_cache_disabled now ev (st : state S) s' :
  use_local_cache self = false ->
  _delete_record
    (DataRecord_default (_get_hashed_idempotency_key jmespath_search self ev))
    now (store st) = (Return tt, s') ->
  delete_record jmespath_search self now ev st = (Return tt, mkState (_cache st) s').
Proof.
  intros Hc Hdel. unfold delete_record, bind, on_store. rewrite Hdel. simpl.
  unfold _delete_from_cache. rewrite Hc. reflexivity.
Qed.


End Methods.

(** ** The methods on the store in memory *)

(** C4 fails as stated: the test of [_save_to_cache] is on the derived
    status, which is [EXPIRED] for a record stored as [INPROGRESS] and past
    its timestamp, and that record is written to the cache. *)
Lemma save_to_cache_stores_expired_inprogress :
  _status (mkDataRecord "k" "INPROGRESS" (Some 1) "" None) = STATUS_CONSTANTS.INPROGRESS
  /\ LRUDict.items
       (_cache (snd (_save_to_cache (layer "id" "" true) 2
                       (mkDataRecord "k" "INPROGRESS" (Some 1) "" None)
                       (init (layer "id" "" true) empty_store))))
     = [("k", mkDataRecord "k" "INPROGRESS" (Some 1) "" None)].
Proof. split; reflexivity. Qed.

Lemma save_to_cache_skips_inprogress_witness :
  _save_to_cache (layer "id" "" true) 2
    (mkDataRecord "k" "INPROGRESS" (Some 10) "" None)
    (init (layer "id" "" true) empty_store)
  = (Return tt, init (layer "id" "" true) empty_store)
  /\ LRUDict.lookup "k"
       (LRUDict.items
          (LRUDict.setitem "k" (mkDataRecord "k" "INPROGRESS" (Some 10) "" None)
             (_cache (init (layer "id" "" true) empty_store))))
     = Some (mkDataRecord "k" "INPROGRESS" (Some 10) "" None).
Proof.
  destruct (save_to_cache_skips_inprogress (layer "id" "" true) 2
              (mkDataRecord "k" "INPROGRESS" (Some 10) "" None)
              (init (layer "id" "" true) empty_store) eq_refl) as [Hskip _].
  destruct (save_to_cache_skips_inprogress (layer "id" "" true) 11
              (mkDataRecord "k" "INPROGRESS" (Some 10) "" None)
              (init (layer "id" "" true) empty_store) eq_refl) as [_ Hstore].
  destruct (Hstore eq_refl) as (_ & Hon & _).
  destruct (Hon eq_refl) as [_ Hheld].
  split; [apply Hskip; reflexivity | apply Hheld; simpl; lia].
Defined.

(** C5: on a layer with the local cache enabled, a store without record
    and an empty cache, [delete_record] deletes from the store and then
    raises [KeyError] from [del self._cache[idempotency_key]]. *)
Theorem delete_record_without_record_raises :
  delete_record search_identifier (layer "id" "" true) 100 order_1
    (init (layer "id" "" true) empty_store)
  = (Raise (KeyError "c4ca4238a0b923820dcc509a6f75849b"),
     init (layer "id" "" true) empty_store).
Proof. vm_compute. reflexivity. Qed.

(** C8: the same two calls, [save_inprogress] and then [delete_record] for
    the same event, on the same empty store: with the local cache the
    second raises [KeyError], without it both return. *)
Theorem cache_changes_the_outcome :
  run search_identifier (layer "id" "" true)
    [(100, SaveInprogress order_1); (101, DeleteRecord order_1)]
    (init (layer "id" "" true) empty_store)
  = [Return Done; Raise (KeyError "c4ca4238a0b923820dcc509a6f75849b")]
  /\ run search_identifier (layer "id" "" false)
       [(100, SaveInprogress order_1); (101, DeleteRecord order_1)]
       (init (layer "id" "" false) empty_store)
     = [Return Done; Return Done].
Proof. split; vm_compute; reflexivity. Qed.

(** C9 fails as stated: a record stored under the status [EXPIRED] with no
    expiry timestamp has the derived status [EXPIRED]; [_save_to_cache]
    caches it and the read returns it. *)
Lemma retrieve_from_cache_returns_stored_expired :
  status (mkDataRecord "k" "EXPIRED" None "" None) 100 = Return STATUS_CONSTANTS.EXPIRED
  /\ fst (_retrieve_from_cache (layer "id" "" true) 100 "k"
            (snd (_save_to_cache (layer "id" "" true) 100
                    (mkDataRecord "k" "EXPIRED" None "" None)
                    (init (layer "id" "" true) empty_store))))
     = Return (Some (mkDataRecord "k" "EXPIRED" None "" None)).
Proof. split; reflexivity. Qed.

Lemma retrieve_from_cache_evicts_expired_witness :
  _retrieve_from_cache (layer "id" "" true) 100 "k"
    (mkState (LRUDict.mk 256 [("k", mkDataRecord "k" "EXPIRED" (Some 50) "" None)])
             empty_store)
  = (Return None,
     evicted "k"
       (mkState (LRUDict.mk 256 [("k", mkDataRecord "k" "EXPIRED" (Some 50) "" None)])
                empty_store)).
Proof.
  destruct (retrieve_from_cache_evicts_expired (layer "id" "" true) 100 "k"
              (mkDataRecord "k" "EXPIRED" (Some 50) "" None)
              (mkState (LRUDict.mk 256
                          [("k", mkDataRecord "k" "EXPIRED" (Some 50) "" None)])
                       empty_store) eq_refl eq_refl) as [Hevict _].
  apply Hevict. reflexivity.
Defined.


Example save_success_writes_completed_1 :
  store (snd (save_success search_identifier (layer "id" "body" false) 100 order_1 (JInt 5)
                (init (layer "id" "body" false) empty_store)))
  = store_completed_1.
Proof. vm_compute. reflexivity. Qed.


(** ** What the cache holds over a run *)

Section CacheInvariant.

Variable jmespath_search : string -> json -> json.
Context {S : Type} `{PersistenceStore S}.
Variable self : BasePersistenceLayer.

Lemma no_live_inprogress_mono now now' c :
  now <= now' -> no_live_inprogress now c -> no_live_inprogress now' c.
Proof.
  intros Hle Hc. unfold no_live_inprogress in *.
  eapply Forall_impl; [exact Hc|].
  intros kv Hkv Hraw. eapply is_expired_mono; eauto.
Qed.

Section Keeps.

Variable I : LRUDict.t -> Prop.

Lemma keeps_ret {A} (a : A) : keeps (S:=S) I (ret a).
Proof. intros st Hst. exact Hst. Qed.

Lemma keeps_raise {A} (e : exn) : keeps (S:=S) (A:=A) I (raise e).
Proof. intros st Hst. exact Hst. Qed.

Lemma keeps_lift {A} (o : outcome A) : keeps (S:=S) I (lift o).
Proof. intros st Hst. exact Hst. Qed.

Lemma keeps_on_store {A} (f : S -> outcome A * S) : keeps I (on_store f).
Proof. intros st Hst. unfold on_store. destruct (f (store st)). exact Hst. Qed.

Lemma keeps_on_cache {A} (f : LRUDict.t -> outcome A * LRUDict.t) :
  (forall c, I c -> I (snd (f c))) -> keeps (S:=S) I (on_cache f).
Proof.
  intros Hf st Hst. unfold on_cache. specialize (Hf _ Hst).
  destruct (f (_cache st)). exact Hf.
Qed.

Lemma keeps_bind {A B} (m : M S A) (k : A -> M S B) :
  keeps I m -> (forall a, keeps I (k a)) -> keeps I (bind m k).
Proof.
  intros Hm Hk st Hst. unfold bind. specialize (Hm st Hst).
  destruct (m st) as [[a|e] st']; simpl in Hm; [apply Hk|]; exact Hm.
Qed.

End Keeps.

Variable now : Z.

Lemma keeps_delete_from_cache k :
  keeps (S:=S) (no_live_inprogress now) (_delete_from_cache self k).
Proof.
  unfold _delete_from_cache. destruct (use_local_cache self); simpl;
    [|apply keeps_ret].
  apply keeps_on_cache. intros c Hc. unfold LRUDict.delitem.
  destruct (LRUDict.lookup k (LRUDict.items c)); simpl; [|exact Hc].
  apply LRUDictFacts.Forall_remove, Hc.
Qed.

Lemma keeps_retrieve_from_cache k :
  keeps (S:=S) (no_live_inprogress now) (_retrieve_from_cache self now k).
Proof.
  unfold _retrieve_from_cache. destruct (use_local_cache self); simpl;
    [|apply keeps_ret].
  apply keeps_bind.
  - apply keeps_on_cache. intros c Hc. unfold LRUDict.get.
    destruct (LRUDict.lookup k (LRUDict.items c)) as [v|] eqn:Hl; simpl; [|exact Hc].
    apply Forall_app. split; [apply LRUDictFacts.Forall_remove, Hc|].
    apply Forall_singleton.
    apply LRUDictFacts.lookup_elem_of in Hl.
    unfold no_live_inprogress in Hc. rewrite Forall_forall in Hc. apply (Hc _ Hl).
  - intros [r|]; [|apply keeps_ret].
    destruct (is_expired r now); simpl; [|apply keeps_ret].
    apply keeps_bind; [apply keeps_delete_from_cache | intros; apply keeps_ret].
Qed.

Lemma keeps_save_to_cache r :
  keeps (S:=S) (no_live_inprogress now) (_save_to_cache self now r).
Proof.
  unfold _save_to_cache. destruct (use_local_cache self); simpl;
    [|apply keeps_ret].
  intros st Hst. unfold bind, lift.
  destruct (status r now) as [s|e] eqn:Hs; [|exact Hst].
  destruct (String.eqb_spec s STATUS_CONSTANTS.INPROGRESS) as [->|Hne]; [exact Hst|].
  simpl. apply LRUDictFacts.Forall_setitem; [exact Hst|].
  simpl. intros Hraw.
  destruct (is_expired r now) eqn:Hexp; [reflexivity|].
  exfalso. apply Hne.
  assert (status r now = Return STATUS_CONSTANTS.INPROGRESS) as Hs'
    by (apply status_inprogress; auto).
  congruence.
Qed.

Lemma keeps_perform c :
  keeps (no_live_inprogress now) (perform jmespath_search self now c).
Proof.
  destruct c as [ev|ev result|ev|ev]; simpl;
    (apply keeps_bind; [|intros; apply keeps_ret]).
  - unfold save_inprogress. apply keeps_bind; [apply keeps_retrieve_from_cache|].
    intros [r|]; [apply keeps_raise | apply keeps_on_store].
  - unfold save_success. apply keeps_bind; [apply keeps_on_store|].
    intros _. apply keeps_save_to_cache.
  - unfold delete_record. apply keeps_bind; [apply keeps_on_store|].
    intros _. apply keeps_delete_from_cache.
  - unfold get_record. apply keeps_bind; [apply keeps_retrieve_from_cache|].
    intros [r|].
    + apply keeps_bind; [apply keeps_lift | intros; apply keeps_ret].
    + apply keeps_bind; [apply keeps_on_store|]. intros record.
      apply keeps_bind; [apply keeps_save_to_cache|]. intros _.
      apply keeps_bind; [apply keeps_lift | intros; apply keeps_ret].
Qed.

(** What a cache read returns was in the cache and has not expired. *)
Lemma retrieve_from_cache_returns k r (st st' : state S) :
  _retrieve_from_cache self now k st = (Return (Some r), st') ->
  LRUDict.lookup k (LRUDict.items (_cache st)) = Some r /\ is_expired r now = false.
Proof.
  unfold _retrieve_from_cache. destruct (use_local_cache self); simpl; [|discriminate].
  unfold bind, on_cache, LRUDict.get.
  destruct (LRUDict.lookup k (LRUDict.items (_cache st))) as [v|]; simpl; [|discriminate].
  destruct (is_expired v now) eqn:Hexp; simpl.
  - destruct (_delete_from_cache self k _) as [[[]|e] st'']; discriminate.
  - intros [= -> _]. auto.
Qed.

End CacheInvariant.

(** X1: over calls made in the order of their times, the cache of a fresh
    instance never holds a record stored as [INPROGRESS] that has not
    expired, so a cache read never returns a record stored as
    [INPROGRESS]. *)
Lemma cache_never_serves_inprogress
  (jmespath_search : string -> json -> json) {S : Type} `{PersistenceStore S}
  (self : BasePersistenceLayer) (calls : list (Z * call)) (t0 now : Z)
  (s : S) (k : string) (r : DataRecord) (st' : state S) :
  chronological t0 calls ->
  end_time t0 calls <= now ->
  _retrieve_from_cache self now k (exec jmespath_search self calls (init self s))
  = (Return (Some r), st') ->
  _status r <> STATUS_CONSTANTS.INPROGRESS.
Proof.
  intros Hchr Hend Hret.
  assert (forall calls t0 (st : state S),
             chronological t0 calls -> no_live_inprogress t0 (_cache st) ->
             no_live_inprogress (end_time t0 calls)
               (_cache (exec jmespath_search self calls st))) as Hinv.
  { clear. induction calls as [|[t c] calls IH]; intros t0 st; simpl.
    - auto.
    - intros [Hle Hchr] Hst. apply IH; [exact Hchr|].
      apply keeps_perform. apply (no_live_inprogress_mono t0 t _ Hle Hst). }
  specialize (Hinv calls t0 (init self s) Hchr (List.Forall_nil _)).
  apply (no_live_inprogress_mono _ now _ Hend) in Hinv.
  destruct (retrieve_from_cache_returns self now k r _ _ Hret) as [Hl Hexp].
  apply LRUDictFacts.lookup_elem_of in Hl.
  unfold no_live_inprogress in Hinv. rewrite Forall_forall in Hinv.
  intros Hraw. specialize (Hinv _ Hl Hraw). simpl in Hinv. congruence.
Qed.

(** ** The cache against the store *)

Module MirrorFacts.
Import LRUDict LRUDictFacts.

Lemma mirrors_lookup c s k r :
  mirrors c s -> lookup k (items c) = Some r -> s !! k = Some r.
Proof.
  unfold mirrors. rewrite Forall_forall. intros Hm Hl.
  apply (Hm (k, r)), lookup_elem_of, Hl.
Qed.

Lemma lookup_none_keys k l : lookup k l = None -> Forall (fun kv => fst kv <> k) l.
Proof.
  induction l as [|[k' v] l IH]; simpl; [constructor|].
  destruct (String.eqb_spec k' k); [discriminate|].
  intros Hl. constructor; [assumption | apply IH, Hl].
Qed.

Lemma remove_keys k l : Forall (fun kv => fst kv <> k) (remove k l).
Proof. apply lookup_none_keys, lookup_remove_eq. Qed.

Lemma mirrors_other_keys k (l : list (string * DataRecord)) (s s' : gmap string DataRecord) :
  Forall (fun kv => fst kv <> k) l ->
  (forall k', k' <> k -> s' !! k' = s !! k') ->
  Forall (fun kv => s !! fst kv = Some (snd kv)) l ->
  Forall (fun kv => s' !! fst kv = Some (snd kv)) l.
Proof.
  intros Hk Hs Hm. induction l as [|kv l IH]; [constructor|].
  inversion Hk; subst. inversion Hm; subst.
  constructor; [rewrite Hs by assumption; assumption | apply IH; assumption].
Qed.

Lemma mirrors_insert c s k r :
  mirrors c s -> mirrors (setitem k r c) (<[k := r]> s).
Proof.
  intros Hm. apply Forall_setitem_other.
  - apply (mirrors_other_keys k _ s); [apply remove_keys | | apply Forall_remove, Hm].
    intros k' Hne. apply lookup_insert_ne. congruence.
  - simpl. apply lookup_insert_eq.
Qed.

Lemma mirrors_removed c s s' k :
  (forall k', k' <> k -> s' !! k' = s !! k') ->
  mirrors c s -> mirrors (mk (max_items c) (remove k (items c))) s'.
Proof.
  intros Hs Hm. unfold mirrors. simpl.
  apply (mirrors_other_keys k _ s); [apply remove_keys | exact Hs | apply Forall_remove, Hm].
Qed.

Lemma mirrors_absent c s s' k :
  lookup k (items c) = None ->
  (forall k', k' <> k -> s' !! k' = s !! k') ->
  mirrors c s -> mirrors c s'.
Proof.
  intros Hl Hs Hm.
  apply (mirrors_other_keys k _ s); [apply lookup_none_keys, Hl | exact Hs | exact Hm].
Qed.

Lemma mirrors_moved c s k r :
  lookup k (items c) = Some r ->
  mirrors c s -> mirrors (mk (max_items c) (remove k (items c) ++ [(k, r)])) s.
Proof.
  intros Hl Hm. unfold mirrors. simpl. apply Forall_app. split.
  - apply Forall_remove, Hm.
  - apply Forall_singleton. simpl. apply (mirrors_lookup c s k r Hm Hl).
Qed.

Lemma store_ok_insert s r :
  store_ok s -> in_values (_status r) = true -> store_ok (<[idempotency_key r := r]> s).
Proof.
  intros Hs Hv k r'. destruct (decide (k = idempotency_key r)) as [->|Hne].
  - rewrite lookup_insert_eq. intros [= <-]. auto.
  - rewrite lookup_insert_ne by congruence. apply Hs.
Qed.

Lemma store_ok_delete s k : store_ok s -> store_ok (delete k s).
Proof.
  intros Hs k' r'. destruct (decide (k' = k)) as [->|Hne].
  - rewrite lookup_delete_eq. discriminate.
  - rewrite lookup_delete_ne by congruence. apply Hs.
Qed.

Lemma mirrors_setitem c s k r :
  mirrors c s -> s !! k = Some r -> mirrors (setitem k r c) s.
Proof. intros Hm Hr. apply Forall_setitem; assumption. Qed.

Lemma mirrors_evicted c s k :
  mirrors c s -> mirrors (mk (max_items c) (remove k (items c))) s.
Proof. intros Hm. apply Forall_remove, Hm. Qed.

End MirrorFacts.

Section Simulation.

Import MirrorFacts.

Variable jmespath_search : string -> json -> json.
Variable self : BasePersistenceLayer.
Hypothesis cache_on : use_local_cache self = true.

Lemma save_inprogress_sim now ev c0 cn s :
  mirrors c0 s -> store_ok s ->
  forall o_c st_c o_n st_n,
    save_inprogress jmespath_search self now ev (mkState c0 s) = (o_c, st_c) ->
    save_inprogress jmespath_search (with_cache false self) now ev (mkState cn s)
    = (o_n, st_n) ->
    o_c = o_n /\ sim st_c st_n.
Proof.
  intros Hm Hok o_c st_c o_n st_n.
  unfold save_inprogress, bind. cbn [idempotency_key].
  change (_retrieve_from_cache (with_cache false self) now _ (mkState cn s))
    with (@Return (option DataRecord) None, mkState cn s).
  change (_get_hashed_idempotency_key jmespath_search (with_cache false self) ev)
    with (_get_hashed_idempotency_key jmespath_search self ev).
  change (_get_hashed_payload jmespath_search (with_cache false self) ev)
    with (_get_hashed_payload jmespath_search self ev).
  change (_get_expiry_timestamp (with_cache false self) now)
    with (_get_expiry_timestamp self now).
  set (k := _get_hashed_idempotency_key jmespath_search self ev).
  set (r := mkDataRecord k _ _ _ _).
  unfold on_store. cbn [store _cache _put_record memory_store].
  unfold MemoryStore.put. cbn [idempotency_key r].
  destruct (LRUDict.lookup k (LRUDict.items c0)) as [old|] eqn:Hl.
  - pose proof (mirrors_lookup _ _ _ _ Hm Hl) as Hold. rewrite Hold.
    destruct (is_expired old now) eqn:Hexp.
    + rewrite (retrieve_from_cache_is_expired self now k old (mkState c0 s) cache_on Hl Hexp).
      unfold evicted. cbn [store _cache]. rewrite Hold, Hexp.
      intros [= <- <-] [= <- <-]. split; [reflexivity|]. split; [reflexivity|]. split; cbn [store _cache].
      * apply (mirrors_removed c0 s _ k); [|exact Hm].
        intros k' Hne. apply lookup_insert_ne. congruence.
      * apply (store_ok_insert s r Hok). reflexivity.
    + rewrite (retrieve_from_cache_hit self now k old (mkState c0 s) cache_on Hl Hexp).
      unfold raise.
      intros [= <- <-] [= <- <-]. split; [reflexivity|]. split; [reflexivity|]. split; cbn [store _cache].
      * apply (mirrors_moved c0 s k old Hl Hm).
      * exact Hok.
  - rewrite (retrieve_from_cache_miss self now k (mkState c0 s) cache_on Hl).
    cbn [store _cache].
    destruct (s !! k) as [old|] eqn:Hold; [destruct (is_expired old now)|];
      intros [= <- <-] [= <- <-]; (split; [reflexivity|]);
      (split; [reflexivity|]); split; cbn [store _cache]; try assumption.
    + apply (mirrors_absent c0 s _ k Hl); [|exact Hm].
      intros k' Hne. apply lookup_insert_ne. congruence.
    + apply (store_ok_insert s r Hok). reflexivity.
    + apply (mirrors_absent c0 s _ k Hl); [|exact Hm].
      intros k' Hne. apply lookup_insert_ne. congruence.
    + apply (store_ok_insert s r Hok). reflexivity.
Qed.

Lemma save_to_cache_result now r st0 (st : state (gmap string DataRecord)) :
  status r now = Return st0 ->
  _save_to_cache self now r st
  = (Return tt,
     if String.eqb st0 STATUS_CONSTANTS.INPROGRESS then st
     else mkState (LRUDict.setitem (idempotency_key r) r (_cache st)) (store st)).
Proof.
  intros Hs. unfold _save_to_cache. rewrite cache_on. cbn [negb].
  unfold bind, lift. rewrite Hs.
  destruct (String.eqb st0 STATUS_CONSTANTS.INPROGRESS); reflexivity.
Qed.

Lemma save_success_sim now ev result c0 cn s :
  mirrors c0 s -> store_ok s ->
  forall o_c st_c o_n st_n,
    save_success jmespath_search self now ev result (mkState c0 s) = (o_c, st_c) ->
    save_success jmespath_search (with_cache false self) now ev result (mkState cn s)
    = (o_n, st_n) ->
    o_c = o_n /\ sim st_c st_n.
Proof.
  intros Hm Hok o_c st_c o_n st_n.
  unfold save_success, bind.
  change (_get_hashed_idempotency_key jmespath_search (with_cache false self) ev)
    with (_get_hashed_idempotency_key jmespath_search self ev).
  change (_get_hashed_payload jmespath_search (with_cache false self) ev)
    with (_get_hashed_payload jmespath_search self ev).
  change (_get_expiry_timestamp (with_cache false self) now)
    with (_get_expiry_timestamp self now).
  set (k := _get_hashed_idempotency_key jmespath_search self ev).
  set (r := mkDataRecord k _ _ _ _).
  unfold on_store. cbn [store _cache _update_record memory_store].
  unfold MemoryStore.update. cbn [idempotency_key r].
  change (_save_to_cache (with_cache false self) now r (mkState cn (<[k:=r]> s)))
    with (Return tt, mkState cn (<[k:=r]> s)).
  assert (exists st0, status r now = Return st0
                      /\ String.eqb st0 STATUS_CONSTANTS.INPROGRESS = false)
    as (st0 & Hst0 & Hne).
  { unfold status. destruct (is_expired r now); eexists; split; reflexivity. }
  rewrite (save_to_cache_result now r st0 _ Hst0), Hne. cbn [store _cache idempotency_key r].
  intros [= <- <-] [= <- <-]. split; [reflexivity|]. split; [reflexivity|].
  split; cbn [store _cache].
  - apply mirrors_insert, Hm.
  - apply (store_ok_insert s r Hok). reflexivity.
Qed.

Lemma delete_record_sim now ev c0 cn s :
  mirrors c0 s -> store_ok s ->
  forall o_c st_c o_n st_n,
    delete_record jmespath_search self now ev (mkState c0 s) = (o_c, st_c) ->
    delete_record jmespath_search (with_cache false self) now ev (mkState cn s)
    = (o_n, st_n) ->
    (o_c = o_n \/ exists k, o_c = Raise (KeyError k) /\ o_n = Return tt)
    /\ sim st_c st_n.
Proof.
  intros Hm Hok o_c st_c o_n st_n.
  unfold delete_record, bind.
  change (_get_hashed_idempotency_key jmespath_search (with_cache false self) ev)
    with (_get_hashed_idempotency_key jmespath_search self ev).
  set (k := _get_hashed_idempotency_key jmespath_search self ev).
  unfold on_store. cbn [store _cache _delete_record memory_store].
  unfold MemoryStore.del, DataRecord_default. cbn [idempotency_key].
  change (_delete_from_cache (with_cache false self) k (mkState cn (delete k s)))
    with (Return tt, mkState cn (delete k s)).
  assert (forall k', k' <> k -> delete k s !! k' = s !! k') as Hother
    by (intros k' Hne; apply lookup_delete_ne; congruence).
  destruct (LRUDict.lookup k (LRUDict.items c0)) as [old|] eqn:Hl.
  - rewrite (delete_from_cache_present self k old (mkState c0 (delete k s)) cache_on Hl).
    intros [= <- <-] [= <- <-]. split; [left; reflexivity|]. split; [reflexivity|].
    split; cbn [store _cache evicted].
    + apply (mirrors_removed c0 s _ k Hother Hm).
    + apply store_ok_delete, Hok.
  - rewrite (delete_from_cache_absent self k (mkState c0 (delete k s)) cache_on Hl).
    intros [= <- <-] [= <- <-]. split; [right; eauto|]. split; [reflexivity|].
    split; cbn [store _cache].
    + apply (mirrors_absent c0 s _ k Hl Hother Hm).
    + apply store_ok_delete, Hok.
Qed.

Lemma get_record_sim now ev c0 cn s :
  mirrors c0 s -> store_ok s ->
  forall o_c st_c o_n st_n,
    get_record jmespath_search self now ev (mkState c0 s) = (o_c, st_c) ->
    get_record jmespath_search (with_cache false self) now ev (mkState cn s)
    = (o_n, st_n) ->
    o_c = o_n /\ sim st_c st_n.
Proof.
  intros Hm Hok o_c st_c o_n st_n.
  unfold get_record, bind.
  change (_retrieve_from_cache (with_cache false self) now _ (mkState cn s))
    with (@Return (option DataRecord) None, mkState cn s).
  change (_get_hashed_idempotency_key jmespath_search (with_cache false self) ev)
    with (_get_hashed_idempotency_key jmespath_search self ev).
  set (k := _get_hashed_idempotency_key jmespath_search self ev).
  unfold on_store. cbn [store _cache _get_record memory_store].
  unfold MemoryStore.get.
  assert (forall r (st : state (gmap string DataRecord)),
            _save_to_cache (with_cache false self) now r st = (Return tt, st))
    as Hoff by reflexivity.
  assert (forall r, _validate_payload jmespath_search (with_cache false self) ev r
                    = _validate_payload jmespath_search self ev r) as Hval by reflexivity.
  destruct (LRUDict.lookup k (LRUDict.items c0)) as [old|] eqn:Hl.
  - pose proof (mirrors_lookup _ _ _ _ Hm Hl) as Hold. rewrite Hold, Hoff, Hval.
    destruct (Hok _ _ Hold) as [Hkey _].
    destruct (is_expired old now) eqn:Hexp.
    + rewrite (retrieve_from_cache_is_expired self now k old (mkState c0 s) cache_on Hl Hexp).
      unfold evicted. cbn [store _cache]. rewrite Hold.
      rewrite (save_to_cache_result now old _ _ (status_expired old now Hexp)).
      cbn [String.eqb Ascii.eqb STATUS_CONSTANTS.EXPIRED STATUS_CONSTANTS.INPROGRESS
             Bool.eqb store _cache].
      unfold lift, ret.
      destruct (_validate_payload jmespath_search self ev old);
        intros [= <- <-] [= <- <-]; (split; [reflexivity|]); (split; [reflexivity|]);
        (split; [|exact Hok]); cbn [store _cache]; rewrite Hkey;
        apply mirrors_setitem; [apply mirrors_evicted, Hm | exact Hold
                               | apply mirrors_evicted, Hm | exact Hold].
    + rewrite (retrieve_from_cache_hit self now k old (mkState c0 s) cache_on Hl Hexp).
      unfold lift, ret.
      destruct (_validate_payload jmespath_search self ev old);
        intros [= <- <-] [= <- <-]; (split; [reflexivity|]); (split; [reflexivity|]);
        (split; [|exact Hok]); cbn [store _cache]; apply (mirrors_moved c0 s k old Hl Hm).
  - rewrite (retrieve_from_cache_miss self now k (mkState c0 s) cache_on Hl).
    cbn [store _cache].
    destruct (s !! k) as [rec|] eqn:Hrec.
    + rewrite Hoff, Hval. destruct (Hok _ _ Hrec) as [Hkey Hin].
      assert (exists st0, status rec now = Return st0) as [st0 Hst0].
      { unfold status. destruct (is_expired rec now); [eauto|]. rewrite Hin. eauto. }
      rewrite (save_to_cache_result now rec st0 _ Hst0).
      unfold lift, ret.
      destruct (String.eqb st0 STATUS_CONSTANTS.INPROGRESS);
        destruct (_validate_payload jmespath_search self ev rec);
        intros [= <- <-] [= <- <-]; (split; [reflexivity|]); (split; [reflexivity|]);
        (split; [|exact Hok]); cbn [store _cache]; rewrite ?Hkey;
        first [exact Hm | apply mirrors_setitem; assumption].
    + intros [= <- <-] [= <- <-]. split; [reflexivity|]. split; [reflexivity|].
      split; assumption.
Qed.

Lemma perform_sim now c st_c st_n :
  sim st_c st_n ->
  forgive (fst (perform jmespath_search self now c st_c))
  = forgive (fst (perform jmespath_search (with_cache false self) now c st_n))
  /\ sim (snd (perform jmespath_search self now c st_c))
         (snd (perform jmespath_search (with_cache false self) now c st_n)).
Proof.
  destruct st_c as [c0 s], st_n as [cn s']. intros (Hs & Hm & Hok).
  cbn [store _cache] in Hs, Hm, Hok. subst s'.
  destruct c as [ev|ev result|ev|ev]; unfold perform, bind.
  - destruct (save_inprogress jmespath_search self now ev _) as [o_c st_c] eqn:Ec.
    destruct (save_inprogress jmespath_search (with_cache false self) now ev _)
      as [o_n st_n] eqn:En.
    destruct (save_inprogress_sim now ev c0 cn s Hm Hok _ _ _ _ Ec En) as [<- Hsim].
    destruct o_c; auto.
  - destruct (save_success jmespath_search self now ev result _) as [o_c st_c] eqn:Ec.
    destruct (save_success jmespath_search (with_cache false self) now ev result _)
      as [o_n st_n] eqn:En.
    destruct (save_success_sim now ev result c0 cn s Hm Hok _ _ _ _ Ec En) as [<- Hsim].
    destruct o_c; auto.
  - destruct (delete_record jmespath_search self now ev _) as [o_c st_c] eqn:Ec.
    destruct (delete_record jmespath_search (with_cache false self) now ev _)
      as [o_n st_n] eqn:En.
    destruct (delete_record_sim now ev c0 cn s Hm Hok _ _ _ _ Ec En)
      as [[<-|(k & -> & ->)] Hsim].
    + destruct o_c; auto.
    + auto.
  - destruct (get_record jmespath_search self now ev _) as [o_c st_c] eqn:Ec.
    destruct (get_record jmespath_search (with_cache false self) now ev _)
      as [o_n st_n] eqn:En.
    destruct (get_record_sim now ev c0 cn s Hm Hok _ _ _ _ Ec En) as [<- Hsim].
    destruct o_c; auto.
Qed.

Lemma run_sim calls :
  forall st_c st_n, sim st_c st_n ->
    map forgive (run jmespath_search self calls st_c)
    = map forgive (run jmespath_search (with_cache false self) calls st_n).
Proof.
  induction calls as [|[now c] calls IH]; intros st_c st_n Hsim; [reflexivity|].
  destruct (perform_sim now c st_c st_n Hsim) as [Ho Hsim'].
  cbn [run].
  destruct (perform jmespath_search self now c st_c) as [o_c st_c'].
  destruct (perform jmespath_search (with_cache false self) now c st_n) as [o_n st_n'].
  cbn [map fst snd] in *. rewrite Ho, (IH _ _ Hsim'). reflexivity.
Qed.

(** What [delete_record] gives on the two instances. *)
Lemma delete_record_outcomes now ev c0 cn (s : gmap string DataRecord) :
  fst (delete_record jmespath_search self now ev (mkState c0 s))
  = match LRUDict.lookup (_get_hashed_idempotency_key jmespath_search self ev)
            (LRUDict.items c0) with
    | Some _ => Return tt
    | None => Raise (KeyError (_get_hashed_idempotency_key jmespath_search self ev))
    end
  /\ fst (delete_record jmespath_search (with_cache false self) now ev (mkState cn s))
     = Return tt.
Proof.
  split; [|reflexivity].
  unfold delete_record, bind.
  set (k := _get_hashed_idempotency_key jmespath_search self ev).
  unfold on_store. cbn [store _cache _delete_record memory_store].
  unfold MemoryStore.del, DataRecord_default. cbn [idempotency_key].
  destruct (LRUDict.lookup k (LRUDict.items c0)) as [old|] eqn:Hl.
  - rewrite (delete_from_cache_present self k old (mkState c0 (delete k s)) cache_on Hl).
    reflexivity.
  - rewrite (delete_from_cache_absent self k (mkState c0 (delete k s)) cache_on Hl).
    reflexivity.
Qed.

Lemma perform_agree now c st_c st_n :
  sim st_c st_n ->
  agree_at jmespath_search self c st_c
    (fst (perform jmespath_search self now c st_c))
    (fst (perform jmespath_search (with_cache false self) now c st_n)).
Proof.
  destruct st_c as [c0 s], st_n as [cn s']. intros (Hs & Hm & Hok).
  cbn [store _cache] in Hs, Hm, Hok. subst s'.
  destruct c as [ev|ev result|ev|ev]; unfold agree_at, perform, bind.
  - destruct (save_inprogress jmespath_search self now ev _) as [o_c st_c] eqn:Ec.
    destruct (save_inprogress jmespath_search (with_cache false self) now ev _)
      as [o_n st_n] eqn:En.
    destruct (save_inprogress_sim now ev c0 cn s Hm Hok
                _ _ _ _ Ec En) as [<- _].
    destruct o_c; reflexivity.
  - destruct (save_success jmespath_search self now ev result _) as [o_c st_c] eqn:Ec.
    destruct (save_success jmespath_search (with_cache false self) now ev result _)
      as [o_n st_n] eqn:En.
    destruct (save_success_sim now ev result c0 cn s Hm Hok
                _ _ _ _ Ec En) as [<- _].
    destruct o_c; reflexivity.
  - destruct (delete_record_outcomes now ev c0 cn s) as [Hc Hn].
    destruct (delete_record jmespath_search self now ev _) as [o_c st_c].
    destruct (delete_record jmespath_search (with_cache false self) now ev _)
      as [o_n st_n].
    cbn [fst] in Hc, Hn. subst o_c o_n. cbn [_cache].
    destruct (LRUDict.lookup _ (LRUDict.items c0)); split; reflexivity.
  - destruct (get_record jmespath_search self now ev _) as [o_c st_c] eqn:Ec.
    destruct (get_record jmespath_search (with_cache false self) now ev _)
      as [o_n st_n] eqn:En.
    destruct (get_record_sim now ev c0 cn s Hm Hok
                _ _ _ _ Ec En) as [<- _].
    destruct o_c; reflexivity.
Qed.

Lemma run_agree calls :
  forall st_c st_n, sim st_c st_n -> agree jmespath_search self calls st_c st_n.
Proof.
  induction calls as [|[now c] calls IH]; intros st_c st_n Hsim; [exact I|].
  cbn [agree]. split.
  - apply perform_agree, Hsim.
  - apply IH. apply (perform_sim now c st_c st_n Hsim).
Qed.

End Simulation.

(** X2: on the store in memory, filled by the instance alone, a run with the
    local cache and the same run without it agree call by call.  Every
    call gives the same outcome in both, except a [delete_record] made
    while the cache has no entry for the key: there, and only there, the
    instance with the cache raises [KeyError] and the other returns. *)
Theorem cache_agrees_up_to_KeyError
  (jmespath_search : string -> json -> json) (self : BasePersistenceLayer)
  (calls : list (Z * call)) (s : gmap string DataRecord) :
  use_local_cache self = true ->
  store_ok s ->
  agree jmespath_search self calls (init self s) (init (with_cache false self) s).
Proof.
  intros Hon Hok. apply run_agree; [exact Hon|].
  split; [reflexivity|]. split; [apply List.Forall_nil | exact Hok].
Qed.

Lemma cache_never_serves_inprogress_witness :
  fst (_retrieve_from_cache (layer "id" "body" true) 101
         "c4ca4238a0b923820dcc509a6f75849b"
         (exec search_identifier (layer "id" "body" true)
            [(100, SaveSuccess order_1 (JInt 5))]
            (init (layer "id" "body" true) empty_store)))
  = Return (Some completed_1)
  /\ _status completed_1 <> STATUS_CONSTANTS.INPROGRESS.
Proof.
  split; [vm_compute; reflexivity|].
  apply (cache_never_serves_inprogress search_identifier (layer "id" "body" true)
           [(100, SaveSuccess order_1 (JInt 5))] 100 101 empty_store
           "c4ca4238a0b923820dcc509a6f75849b" completed_1
           (snd (_retrieve_from_cache (layer "id" "body" true) 101
                   "c4ca4238a0b923820dcc509a6f75849b"
                   (exec search_identifier (layer "id" "body" true)
                      [(100, SaveSuccess order_1 (JInt 5))]
                      (init (layer "id" "body" true) empty_store))))).
  - simpl. lia.
  - simpl. lia.
  - vm_compute. reflexivity.
Defined.

Lemma cache_agrees_up_to_KeyError_witness :
  agree search_identifier (layer "id" "body" true)
    [(100, SaveInprogress order_1); (101, DeleteRecord order_1);
     (102, SaveInprogress order_1); (103, SaveSuccess order_1 (JInt 5));
     (104, GetRecord order_1); (105, GetRecord order_1_changed);
     (106, DeleteRecord order_1)]
    (init (layer "id" "body" true) empty_store)
    (init (with_cache false (layer "id" "body" true)) empty_store).
Proof.
  apply (cache_agrees_up_to_KeyError search_identifier (layer "id" "body" true)).
  - reflexivity.
  - intros k r Hl. unfold empty_store in Hl. rewrite lookup_empty in Hl. discriminate.
Defined.

(** What the six calls of the run above give with the local cache: the
    [KeyError] of [delete_record], then the completed record served and the
    changed payload refused. *)
Example run_with_cache :
  run search_identifier (layer "id" "body" true)
    [(100, SaveInprogress order_1); (101, DeleteRecord order_1);
     (102, SaveInprogress order_1); (103, SaveSuccess order_1 (JInt 5));
     (104, GetRecord order_1); (105, GetRecord order_1_changed)]
    (init (layer "id" "body" true) empty_store)
  = [Return Done; Raise (KeyError "c4ca4238a0b923820dcc509a6f75849b");
     Return Done; Return Done;
     Return (Found (mkDataRecord "c4ca4238a0b923820dcc509a6f75849b" "COMPLETED"
                      (Some 3703) "5" (Some "3fbf839fa0e778a20326ddc34f5cd588")));
     Raise (IdempotencyValidationError validation_message)].
Proof. vm_compute. reflexivity. Qed.

(** ** Records over time *)

(** X3: [DataRecord.is_expired] and [DataRecord.status]: a record that has
    expired stays expired.  At every later time [is_expired] is true and
    [status] reads [EXPIRED], whatever is stored as its status, known or
    not. *)
Theorem expired_stays_expired (r : DataRecord) (now now' : Z) :
  now <= now' ->
  is_expired r now = true ->
  is_expired r now' = true /\ status r now' = Return STATUS_CONSTANTS.EXPIRED.
Proof.
  intros Hle Hexp.
  pose proof (is_expired_mono r now now' Hle Hexp) as Hexp'.
  split; [exact Hexp' | apply status_expired, Hexp'].
Qed.

Lemma expired_stays_expired_witness :
  is_expired (mkDataRecord "k" "COMPLETED" (Some 10) "" None) 20 = true
  /\ status (mkDataRecord "k" "COMPLETED" (Some 10) "" None) 20
     = Return STATUS_CONSTANTS.EXPIRED.
Proof.
  apply (expired_stays_expired (mkDataRecord "k" "COMPLETED" (Some 10) "" None) 11 20);
    [lia | reflexivity].
Defined.

Module ShrinkFacts.
Import LRUDict.

Lemma elem_of_remove k kv l : kv ∈ remove k l -> kv ∈ l.
Proof.
  induction l as [|[k' v] l IH]; simpl; [auto|].
  destruct (String.eqb k' k).
  - intros Hin. apply list_elem_of_further, IH, Hin.
  - rewrite !elem_of_cons. intros [->|Hin]; [left; reflexivity | right; apply IH, Hin].
Qed.

End ShrinkFacts.

Section MoreMethods.

Variable jmespath_search : string -> json -> json.
Context {S : Type} `{PersistenceStore S}.
Variable self : BasePersistenceLayer.

Lemma adds_nothing_ret {A} (a : A) : adds_nothing (S:=S) (ret a).
Proof. intros st kv Hin. exact Hin. Qed.

Lemma adds_nothing_raise {A} (e : exn) : adds_nothing (S:=S) (A:=A) (raise e).
Proof. intros st kv Hin. exact Hin. Qed.

Lemma adds_nothing_on_store {A} (f : S -> outcome A * S) : adds_nothing (on_store f).
Proof. intros st kv. unfold on_store. destruct (f (store st)). auto. Qed.

Lemma adds_nothing_bind {A B} (m : M S A) (k : A -> M S B) :
  adds_nothing m -> (forall a, adds_nothing (k a)) -> adds_nothing (bind m k).
Proof.
  intros Hm Hk st kv. unfold bind. specialize (Hm st kv).
  destruct (m st) as [[a|e] st']; simpl in *; [|exact Hm].
  intros Hin. apply Hm, (Hk a st' kv Hin).
Qed.

Lemma adds_nothing_delete_from_cache k : adds_nothing (S:=S) (_delete_from_cache self k).
Proof.
  unfold _delete_from_cache. destruct (use_local_cache self); simpl;
    [|apply adds_nothing_ret].
  intros st kv. unfold on_cache, LRUDict.delitem.
  destruct (LRUDict.lookup k (LRUDict.items (_cache st))); simpl; [|auto].
  apply ShrinkFacts.elem_of_remove.
Qed.

Lemma adds_nothing_retrieve_from_cache now k :
  adds_nothing (S:=S) (_retrieve_from_cache self now k).
Proof.
  unfold _retrieve_from_cache. destruct (use_local_cache self); simpl;
    [|apply adds_nothing_ret].
  apply adds_nothing_bind.
  - intros st kv. unfold on_cache, LRUDict.get.
    destruct (LRUDict.lookup k (LRUDict.items (_cache st))) as [v|] eqn:Hl; simpl; [|auto].
    rewrite elem_of_app, list_elem_of_singleton. intros [Hin| ->].
    + apply (ShrinkFacts.elem_of_remove _ _ _ Hin).
    + apply LRUDictFacts.lookup_elem_of, Hl.
  - intros [r|]; [|apply adds_nothing_ret].
    destruct (is_expired r now); simpl; [|apply adds_nothing_ret].
    apply adds_nothing_bind; [apply adds_nothing_delete_from_cache|].
    intros; apply adds_nothing_ret.
Qed.

(** X5: [save_inprogress] and [delete_record] add no entry to the cache:
    whatever they return or raise, and whatever the store does, every entry
    of the cache after the call was there before it. *)
Theorem save_inprogress_and_delete_record_add_nothing (now : Z) (event : json) :
  adds_nothing (S:=S) (save_inprogress jmespath_search self now event)
  /\ adds_nothing (S:=S) (delete_record jmespath_search self now event).
Proof.
  split.
  - unfold save_inprogress. apply adds_nothing_bind;
      [apply adds_nothing_retrieve_from_cache|].
    intros [r|]; [apply adds_nothing_raise | apply adds_nothing_on_store].
  - unfold delete_record. apply adds_nothing_bind; [apply adds_nothing_on_store|].
    intros _. apply adds_nothing_delete_from_cache.
Qed.

Lemma save_inprogress_on_hit now event r (st : state S) :
  use_local_cache self = true ->
  LRUDict.lookup (_get_hashed_idempotency_key jmespath_search self event)
                 (LRUDict.items (_cache st)) = Some r ->
  is_expired r now = false ->
  save_inprogress jmespath_search self now event st
  = (Raise IdempotencyItemAlreadyExistsError,
     touched (_get_hashed_idempotency_key jmespath_search self event) r st).
Proof.
  intros Hc Hl Hexp. unfold save_inprogress, bind. cbn [idempotency_key].
  rewrite (retrieve_from_cache_hit self now _ r st Hc Hl Hexp). reflexivity.
Qed.

Lemma get_record_on_hit now event r (st : state S) :
  use_local_cache self = true ->
  LRUDict.lookup (_get_hashed_idempotency_key jmespath_search self event)
                 (LRUDict.items (_cache st)) = Some r ->
  is_expired r now = false ->
  get_record jmespath_search self now event st
  = (match _validate_payload jmespath_search self event r with
     | Return _ => Return r
     | Raise e => Raise e
     end,
     touched (_get_hashed_idempotency_key jmespath_search self event) r st).
Proof.
  intros Hc Hl Hexp. unfold get_record, bind.
  rewrite (retrieve_from_cache_hit self now _ r st Hc Hl Hexp).
  unfold lift, ret.
  destruct (_validate_payload jmespath_search self event r); reflexivity.
Qed.

(** A record passes the validation against every event whose payload has
    the hash the record holds. *)
Lemma validate_payload_same_hash event r :
  payload_hash r = Some (_get_hashed_payload jmespath_search self event) ->
  _validate_payload jmespath_search self event r = Return tt.
Proof.
  intros Hh. unfold _validate_payload.
  destruct (payload_validation_enabled self); [|reflexivity].
  rewrite bool_decide_eq_true_2 by exact Hh. reflexivity.
Qed.


(** X6: [get_record] on a cache hit.  When the cache holds, for the key of
    the event, a record that has not expired, the call gives that record, or
    the [IdempotencyValidationError] of [_validate_payload] on it, and
    [_get_record] is not called: the store is unchanged. *)
Theorem get_record_cache_hit now event r (st : state S) :
  use_local_cache self = true ->
  LRUDict.lookup (_get_hashed_idempotency_key jmespath_search self event)
                 (LRUDict.items (_cache st)) = Some r ->
  is_expired r now = false ->
  get_record jmespath_search self now event st
  = (match _validate_payload jmespath_search self event r with
     | Return _ => Return r
     | Raise e => Raise e
     end,
     touched (_get_hashed_idempotency_key jmespath_search self event) r st)
  /\ store (touched (_get_hashed_idempotency_key jmespath_search self event) r st)
     = store st.
Proof.
  intros Hc Hl Hexp. split; [|reflexivity].
  apply get_record_on_hit; assumption.
Qed.


(** The record of [save_success] reads as [COMPLETED] or as [EXPIRED]: it
    is one [_save_to_cache] writes. *)
Lemma completed_record_cached now now' event result :
  exists s, status (completed_record jmespath_search self now event result) now' = Return s
            /\ s <> STATUS_CONSTANTS.INPROGRESS.
Proof.
  unfold status. destruct (is_expired _ now').
  - exists STATUS_CONSTANTS.EXPIRED. split; [reflexivity | discriminate].
  - exists STATUS_CONSTANTS.COMPLETED. split; [reflexivity | discriminate].
Qed.

Lemma completed_record_of now event result :
  record_of jmespath_search self event STATUS_CONSTANTS.COMPLETED (Json.dumps result)
    (completed_record jmespath_search self now event result).
Proof. repeat split. Qed.

Lemma save_success_cached now event result (st : state S) s' :
  use_local_cache self = true ->
  _update_record (completed_record jmespath_search self now event result) now (store st)
  = (Return tt, s') ->
  save_success jmespath_search self now event result st
  = (Return tt,
     mkState (LRUDict.setitem (_get_hashed_idempotency_key jmespath_search self event)
                (completed_record jmespath_search self now event result) (_cache st))
             s').
Proof.
  intros Hc Hup. unfold save_success, bind, on_store.
  change (mkDataRecord _ _ _ _ _)
    with (completed_record jmespath_search self now event result).
  rewrite Hup.
  destruct (completed_record_cached now now event result) as (s & Hs & Hne).
  rewrite (save_to_cache_stores self now _ s _ Hc Hs Hne).
  reflexivity.
Qed.

(** When [save_success] returns, [_update_record] has returned. *)
Lemma save_success_returned now event result (st st1 : state S) :
  save_success jmespath_search self now event result st = (Return tt, st1) ->
  exists s',
    _update_record (completed_record jmespath_search self now event result) now (store st)
    = (Return tt, s').
Proof.
  unfold save_success, bind, on_store.
  change (mkDataRecord _ _ _ _ _)
    with (completed_record jmespath_search self now event result).
  destruct (_update_record _ now (store st)) as [[[]|e] s']; [eauto | discriminate].
Qed.

(** X7: with the cache in use and room in it for one entry, when
    [save_success] has returned the cache holds, for the key of the event,
    the record it built: [COMPLETED], with the text of the result and the
    payload hash of the event.  For as long as that record has not
    expired, [get_record], for every event with the same key and the same
    payload hash, returns it from the cache and leaves the store, whatever
    store it is, as it was.  Nothing here depends on the value of the
    expiry timestamp. *)
Theorem save_success_then_get_record now event result (st st1 : state S) :
  use_local_cache self = true ->
  1 <= LRUDict.max_items (_cache st) ->
  save_success jmespath_search self now event result st = (Return tt, st1) ->
  exists r,
    record_of jmespath_search self event STATUS_CONSTANTS.COMPLETED (Json.dumps result) r
    /\ LRUDict.lookup (_get_hashed_idempotency_key jmespath_search self event)
         (LRUDict.items (_cache st1)) = Some r
    /\ forall now' event',
         _get_hashed_idempotency_key jmespath_search self event'
         = _get_hashed_idempotency_key jmespath_search self event ->
         _get_hashed_payload jmespath_search self event'
         = _get_hashed_payload jmespath_search self event ->
         is_expired r now' = false ->
         exists st',
           get_record jmespath_search self now' event' st1 = (Return r, st')
           /\ store st' = store st1.
Proof.
  intros Hc Hmax Hsave.
  destruct (save_success_returned now event result st st1 Hsave) as [s' Hup].
  rewrite (save_success_cached now event result st s' Hc Hup) in Hsave.
  injection Hsave as <-.
  set (r := completed_record jmespath_search self now event result).
  exists r. split; [apply completed_record_of|].
  assert (LRUDict.lookup (_get_hashed_idempotency_key jmespath_search self event)
            (LRUDict.items
               (LRUDict.setitem (_get_hashed_idempotency_key jmespath_search self event)
                  r (_cache st))) = Some r) as Hl
    by apply LRUDictFacts.lookup_setitem_eq, Hmax.
  split; [exact Hl|].
  intros now' event' Hkey Hpay Hexp.
  set (st1 := mkState _ s').
  exists (touched (_get_hashed_idempotency_key jmespath_search self event') r st1).
  split; [|reflexivity].
  rewrite (get_record_on_hit now' event' r st1 Hc);
    [|rewrite Hkey; exact Hl | exact Hexp].
  rewrite (validate_payload_same_hash event' r); [reflexivity|].
  rewrite Hpay. reflexivity.
Qed.

(** X8: [get_record] passes on what [_get_record] raises (the
    [IdempotencyItemNotFoundError] of its docstring, or any other error):
    when the cache gives nothing and the store raises [e], [get_record]
    raises [e], and nothing is written to the cache after the lookup. *)
Theorem get_record_store_error now event e (st st1 : state S) s' :
  _retrieve_from_cache self now (_get_hashed_idempotency_key jmespath_search self event) st
  = (Return None, st1) ->
  _get_record (_get_hashed_idempotency_key jmespath_search self event) now (store st1)
  = (Raise e, s') ->
  get_record jmespath_search self now event st = (Raise e, mkState (_cache st1) s').
Proof.
  intros Hmiss Hget. unfold get_record, bind at 1. rewrite Hmiss.
  unfold bind, on_store. rewrite Hget. reflexivity.
Qed.

(** X9: a stored record whose status is none of [STATUS_CONSTANTS] and that
    has not expired.  With the cache in use, [get_record] raises
    [IdempotencyInvalidStatusError] out of [_save_to_cache], before the
    payload is validated, and the cache is unchanged; without the cache the
    same call validates the payload and returns the record. *)
Theorem get_record_unknown_status now event r (st : state S) s' :
  use_local_cache self = true ->
  LRUDict.lookup (_get_hashed_idempotency_key jmespath_search self event)
                 (LRUDict.items (_cache st)) = None ->
  _get_record (_get_hashed_idempotency_key jmespath_search self event) now (store st)
  = (Return r, s') ->
  is_expired r now = false ->
  in_values (_status r) = false ->
  get_record jmespath_search self now event st
  = (Raise (IdempotencyInvalidStatusError (_status r)), mkState (_cache st) s')
  /\ get_record jmespath_search (with_cache false self) now event st
     = (match _validate_payload jmespath_search self event r with
        | Return _ => Return r
        | Raise e => Raise e
        end,
        mkState (_cache st) s').
Proof.
  intros Hc Hl Hget Hexp Hin. split.
  - unfold get_record, bind at 1.
    rewrite (retrieve_from_cache_miss self now _ st Hc Hl).
    unfold bind at 1. unfold on_store at 1. rewrite Hget.
    assert (status r now = Raise (IdempotencyInvalidStatusError (_status r))) as Hs.
    { rewrite (status_not_expired _ _ Hexp), Hin. reflexivity. }
    unfold bind at 1.
    rewrite (save_to_cache_raises self now r _ _ Hc Hs). reflexivity.
  - unfold get_record, bind.
    change (_retrieve_from_cache (with_cache false self) now _ st)
      with (@Return (option DataRecord) None, st).
    change (_get_hashed_idempotency_key jmespath_search (with_cache false self) event)
      with (_get_hashed_idempotency_key jmespath_search self event).
    unfold on_store. rewrite Hget.
    change (_save_to_cache (with_cache false self) now r (mkState (_cache st) s'))
      with (Return tt, mkState (_cache st) s').
    change (_validate_payload jmespath_search (with_cache false self) event r)
      with (_validate_payload jmespath_search self event r).
    unfold lift, ret.
    destruct (_validate_payload jmespath_search self event r); reflexivity.
Qed.

(** X10: [delete_record] on a cached key.  With the cache in use and an
    entry for the key of the event, once [_delete_record] returned the call
    returns, the store is as [_delete_record] left it, the cache has no
    entry for the key, and a later [_retrieve_from_cache] of the key gives
    nothing. *)
Theorem delete_record_evicts now now' event r (st : state S) s' :
  use_local_cache self = true ->
  LRUDict.lookup (_get_hashed_idempotency_key jmespath_search self event)
                 (LRUDict.items (_cache st)) = Some r ->
  _delete_record
    (DataRecord_default (_get_hashed_idempotency_key jmespath_search self event))
    now (store st) = (Return tt, s') ->
  exists st',
    delete_record jmespath_search self now event st = (Return tt, st')
    /\ store st' = s'
    /\ LRUDict.lookup (_get_hashed_idempotency_key jmespath_search self event)
         (LRUDict.items (_cache st')) = None
    /\ _retrieve_from_cache self now'
         (_get_hashed_idempotency_key jmespath_search self event) st'
       = (Return None, st').
Proof.
  intros Hc Hl Hdel.
  set (k := _get_hashed_idempotency_key jmespath_search self event) in *.
  exists (evicted k (mkState (_cache st) s')).
  assert (LRUDict.lookup k (LRUDict.items (_cache (evicted k (mkState (_cache st) s'))))
          = None) as Hnone by apply LRUDictFacts.lookup_remove_eq.
  split; [|split; [reflexivity|split; [exact Hnone|]]].
  - unfold delete_record, bind, on_store. fold k. rewrite Hdel.
    apply (delete_from_cache_present self k r (mkState (_cache st) s') Hc Hl).
  - apply (retrieve_from_cache_miss self now' k _ Hc Hnone).
Qed.

End MoreMethods.

(** ** What every entry of the cache satisfies *)

Section EntryInvariant.

Variable jmespath_search : string -> json -> json.
Context {S : Type} `{PersistenceStore S}.
Variable self : BasePersistenceLayer.

Section Entries.

(** A property of the entries of the cache. *)
Variable P : string * DataRecord -> Prop.

Lemma keeps_entries_delete_from_cache k :
  keeps (S:=S) (fun c => Forall P (LRUDict.items c)) (_delete_from_cache self k).
Proof.
  unfold _delete_from_cache. destruct (use_local_cache self); simpl;
    [|apply keeps_ret].
  apply keeps_on_cache. intros c Hc. unfold LRUDict.delitem.
  destruct (LRUDict.lookup k (LRUDict.items c)); simpl; [|exact Hc].
  apply LRUDictFacts.Forall_remove, Hc.
Qed.

Lemma keeps_entries_retrieve_from_cache now k :
  keeps (S:=S) (fun c => Forall P (LRUDict.items c)) (_retrieve_from_cache self now k).
Proof.
  unfold _retrieve_from_cache. destruct (use_local_cache self); simpl;
    [|apply keeps_ret].
  apply keeps_bind.
  - apply keeps_on_cache. intros c Hc. unfold LRUDict.get.
    destruct (LRUDict.lookup k (LRUDict.items c)) as [v|] eqn:Hl; simpl; [|exact Hc].
    apply Forall_app. split; [apply LRUDictFacts.Forall_remove, Hc|].
    apply Forall_singleton.
    apply LRUDictFacts.lookup_elem_of in Hl.
    rewrite Forall_forall in Hc. apply (Hc _ Hl).
  - intros [r|]; [|apply keeps_ret].
    destruct (is_expired r now); simpl; [|apply keeps_ret].
    apply keeps_bind; [apply keeps_entries_delete_from_cache | intros; apply keeps_ret].
Qed.

Variable now : Z.

(** The property holds of every record that [_save_to_cache] writes. *)
Hypothesis P_saved :
  forall r s, status r now = Return s -> s <> STATUS_CONSTANTS.INPROGRESS ->
              P (idempotency_key r, r).

Lemma keeps_entries_save_to_cache r :
  keeps (S:=S) (fun c => Forall P (LRUDict.items c)) (_save_to_cache self now r).
Proof.
  unfold _save_to_cache. destruct (use_local_cache self); simpl;
    [|apply keeps_ret].
  intros st Hst. unfold bind, lift.
  destruct (status r now) as [s|e] eqn:Hs; [|exact Hst].
  destruct (String.eqb_spec s STATUS_CONSTANTS.INPROGRESS) as [->|Hne]; [exact Hst|].
  simpl. apply LRUDictFacts.Forall_setitem; [exact Hst|].
  apply (P_saved r s Hs Hne).
Qed.

Lemma keeps_entries_perform c :
  keeps (fun c => Forall P (LRUDict.items c)) (perform jmespath_search self now c).
Proof.
  destruct c as [ev|ev result|ev|ev]; simpl;
    (apply keeps_bind; [|intros; apply keeps_ret]).
  - unfold save_inprogress. apply keeps_bind; [apply keeps_entries_retrieve_from_cache|].
    intros [r|]; [apply keeps_raise | apply keeps_on_store].
  - unfold save_success. apply keeps_bind; [apply keeps_on_store|].
    intros _. apply keeps_entries_save_to_cache.
  - unfold delete_record. apply keeps_bind; [apply keeps_on_store|].
    intros _. apply keeps_entries_delete_from_cache.
  - unfold get_record. apply keeps_bind; [apply keeps_entries_retrieve_from_cache|].
    intros [r|].
    + apply keeps_bind; [apply keeps_lift | intros; apply keeps_ret].
    + apply keeps_bind; [apply keeps_on_store|]. intros record.
      apply keeps_bind; [apply keeps_entries_save_to_cache|]. intros _.
      apply keeps_bind; [apply keeps_lift | intros; apply keeps_ret].
Qed.

End Entries.

Lemma entry_ok_saved now r s :
  status r now = Return s -> s <> STATUS_CONSTANTS.INPROGRESS ->
  entry_ok now (idempotency_key r, r).
Proof.
  intros Hs Hne. split; [reflexivity|]. simpl.
  destruct (is_expired r now) eqn:Hexp; [auto|].
  rewrite (status_not_expired _ _ Hexp) in Hs.
  destruct (in_values (_status r)) eqn:Hin; [|discriminate].
  injection Hs as <-. apply in_values_spec in Hin. tauto.
Qed.

Lemma cache_entries_ok_mono now now' c :
  now <= now' -> cache_entries_ok now c -> cache_entries_ok now' c.
Proof.
  intros Hle Hc. unfold cache_entries_ok in *. eapply Forall_impl; [exact Hc|].
  intros kv [Hk Hs]. split; [exact Hk|].
  destruct Hs as [Hs|[Hs|Hs]]; auto. right. right. eapply is_expired_mono; eauto.
Qed.

Lemma exec_cache_entries_ok calls :
  forall t0 (st : state S),
    chronological t0 calls -> cache_entries_ok t0 (_cache st) ->
    cache_entries_ok (end_time t0 calls)
      (_cache (exec jmespath_search self calls st)).
Proof.
  induction calls as [|[t c] calls IH]; intros t0 st; simpl; [auto|].
  intros [Hle Hchr] Hst. apply IH; [exact Hchr|].
  apply (keeps_entries_perform (entry_ok t) t (entry_ok_saved t)).
  apply (cache_entries_ok_mono t0 t _ Hle Hst).
Qed.

(** X11: over calls made in the order of their times on a fresh instance,
    whatever the store does, a record that [_retrieve_from_cache] returns
    for a key is filed under that very key, is stored as [COMPLETED] or
    [EXPIRED], and its [status] reads without error as the stored one. *)
Theorem cache_serves_finished_records
  (calls : list (Z * call)) (t0 now : Z) (s : S) (k : string) (r : DataRecord)
  (st' : state S) :
  chronological t0 calls ->
  end_time t0 calls <= now ->
  _retrieve_from_cache self now k (exec jmespath_search self calls (init self s))
  = (Return (Some r), st') ->
  idempotency_key r = k
  /\ (_status r = STATUS_CONSTANTS.COMPLETED \/ _status r = STATUS_CONSTANTS.EXPIRED)
  /\ status r now = Return (_status r).
Proof.
  intros Hchr Hend Hret.
  pose proof (exec_cache_entries_ok calls t0 (init self s) Hchr (List.Forall_nil _)) as Hinv.
  apply (cache_entries_ok_mono _ now _ Hend) in Hinv.
  destruct (retrieve_from_cache_returns self now k r _ _ Hret) as [Hl Hexp].
  apply LRUDictFacts.lookup_elem_of in Hl.
  unfold cache_entries_ok in Hinv. rewrite Forall_forall in Hinv.
  destruct (Hinv _ Hl) as [Hk Hs]. simpl in Hk, Hs.
  assert (_status r = STATUS_CONSTANTS.COMPLETED \/ _status r = STATUS_CONSTANTS.EXPIRED)
    as Hraw by (destruct Hs as [?|[?|?]]; [auto | auto | congruence]).
  split; [exact Hk|]. split; [exact Hraw|].
  rewrite (status_not_expired _ _ Hexp).
  destruct Hraw as [->| ->]; reflexivity.
Qed.

End EntryInvariant.

(** ** The life of a key on the store in memory *)

Module SetitemFacts.
Import LRUDict LRUDictFacts.

(** After a write, the entry of the key is the one written, unless the
    capacity left no room for it. *)
Lemma lookup_setitem_cases k v d :
  lookup k (items (setitem k v d)) = Some v \/ lookup k (items (setitem k v d)) = None.
Proof.
  unfold setitem. simpl.
  destruct (max_items d <? _); [|left; apply lookup_moved].
  pose proof (lookup_remove_eq k (items d)) as Habs.
  destruct (remove k (items d)) as [|[k' v'] l]; simpl in *; [right; reflexivity|].
  destruct (String.eqb k' k); [discriminate|].
  left. rewrite lookup_app, Habs. simpl. rewrite String.eqb_refl. reflexivity.
Qed.

End SetitemFacts.

Section KeyLife.

Variable jmespath_search : string -> json -> json.
Variable self : BasePersistenceLayer.

#[local] Abbreviation key ev := (_get_hashed_idempotency_key jmespath_search self ev).

Lemma retrieve_from_cache_absent {S : Type} now k (st : state S) :
  (use_local_cache self = true ->
   LRUDict.lookup k (LRUDict.items (_cache st)) = None) ->
  _retrieve_from_cache self now k st = (Return None, st).
Proof.
  intros Hl. destruct (use_local_cache self) eqn:Hc.
  - apply (retrieve_from_cache_miss self now k st Hc (Hl eq_refl)).
  - unfold _retrieve_from_cache. rewrite Hc. reflexivity.
Qed.

(** [save_inprogress] when the cache has no entry for the key: the outcome
    is the one of [_put_record]. *)
Lemma save_inprogress_uncached now event (st : state (gmap string DataRecord)) :
  (use_local_cache self = true ->
   LRUDict.lookup (key event) (LRUDict.items (_cache st)) = None) ->
  save_inprogress jmespath_search self now event st
  = match store st !! key event with
    | Some old =>
        if is_expired old now
        then (Return tt,
              mkState (_cache st)
                (<[key event := inprogress_record jmespath_search self now event]> (store st)))
        else (Raise IdempotencyItemAlreadyExistsError, st)
    | None =>
        (Return tt,
         mkState (_cache st)
           (<[key event := inprogress_record jmespath_search self now event]> (store st)))
    end.
Proof.
  intros Hl. unfold save_inprogress, bind. cbn [idempotency_key].
  rewrite (retrieve_from_cache_absent now _ st Hl).
  unfold on_store. cbn [_put_record memory_store]. unfold MemoryStore.put.
  cbn [idempotency_key].
  change (mkDataRecord _ _ _ _ _) with (inprogress_record jmespath_search self now event).
  destruct (store st !! key event) as [old|]; [destruct (is_expired old now)|];
    try reflexivity.
  destruct st; reflexivity.
Qed.

Lemma inprogress_record_of now event :
  record_of jmespath_search self event STATUS_CONSTANTS.INPROGRESS EmptyString
    (inprogress_record jmespath_search self now event).
Proof. repeat split. Qed.

(** X12: on the store in memory, [save_inprogress] locks a key until the
    record it wrote expires.  For a key with no record in the store and no
    entry in the cache, and times in the range of [datetime], the first
    call returns and the store holds the record built: [INPROGRESS], with
    the payload hash of the event.  A second call for the same event
    raises [IdempotencyItemAlreadyExistsError] for as long as that record
    has not expired, and returns once it has.  Nothing here depends on the
    value of the expiry timestamp. *)
Theorem save_inprogress_locks_until_expiry t t' event
  (st : state (gmap string DataRecord)) :
  expiry_computed self t ->
  expiry_computed self t' ->
  LRUDict.lookup (key event) (LRUDict.items (_cache st)) = None ->
  store st !! key event = None ->
  exists r,
    record_of jmespath_search self event STATUS_CONSTANTS.INPROGRESS EmptyString r
    /\ save_inprogress jmespath_search self t event st
       = (Return tt, mkState (_cache st) (<[key event := r]> (store st)))
    /\ store (snd (save_inprogress jmespath_search self t event st)) !! key event
       = Some r
    /\ (is_expired r t' = false ->
        fst (save_inprogress jmespath_search self t' event
               (snd (save_inprogress jmespath_search self t event st)))
        = Raise IdempotencyItemAlreadyExistsError)
    /\ (is_expired r t' = true ->
        fst (save_inprogress jmespath_search self t' event
               (snd (save_inprogress jmespath_search self t event st)))
        = Return tt).
Proof.
  intros _ _ Hl Hs.
  exists (inprogress_record jmespath_search self t event).
  split; [apply inprogress_record_of|].
  rewrite (save_inprogress_uncached t event st (fun _ => Hl)), Hs.
  split; [reflexivity|]. cbn [snd store].
  split; [apply lookup_insert_eq|].
  rewrite (save_inprogress_uncached t' event
             (mkState (_cache st) _) (fun _ => Hl)).
  cbn [store _cache]. rewrite lookup_insert_eq.
  split; intros ->; reflexivity.
Qed.



Lemma save_success_state t event result (st : state (gmap string DataRecord)) :
  save_success jmespath_search self t event result st
  = (Return tt,
     mkState (if use_local_cache self
              then LRUDict.setitem (key event)
                     (completed_record jmespath_search self t event result) (_cache st)
              else _cache st)
             (<[key event := completed_record jmespath_search self t event result]>
                (store st))).
Proof.
  destruct (use_local_cache self) eqn:Hc.
  - apply (save_success_cached jmespath_search self t event result st _ Hc).
    reflexivity.
  - unfold save_success, bind, on_store. cbn [_update_record memory_store].
    unfold MemoryStore.update, _save_to_cache. rewrite Hc. reflexivity.
Qed.

(** [_save_to_cache] of a record whose status reads without error returns
    and leaves the store as it is. *)
Lemma save_to_cache_returns now r s (st : state (gmap string DataRecord)) :
  status r now = Return s ->
  exists c, _save_to_cache self now r st = (Return tt, mkState c (store st)).
Proof.
  intros Hs. unfold _save_to_cache. destruct (use_local_cache self); cbn [negb].
  - unfold bind, lift. rewrite Hs.
    destruct (String.eqb s STATUS_CONSTANTS.INPROGRESS);
      [exists (_cache st); destruct st; reflexivity | eexists; reflexivity].
  - exists (_cache st). destruct st; reflexivity.
Qed.

(** [get_record] from the store, the cache having given nothing. *)
Lemma get_record_from_store now event r s (st st1 : state (gmap string DataRecord)) :
  _retrieve_from_cache self now (key event) st = (Return None, st1) ->
  store st1 !! key event = Some r ->
  status r now = Return s ->
  payload_hash r = Some (_get_hashed_payload jmespath_search self event) ->
  fst (get_record jmespath_search self now event st) = Return r.
Proof.
  intros Hmiss Hstore Hs Hhash.
  unfold get_record, bind at 1. rewrite Hmiss.
  unfold bind at 1. unfold on_store at 1. cbn [_get_record memory_store].
  unfold MemoryStore.get. rewrite Hstore.
  destruct (save_to_cache_returns now r s (mkState (_cache st1) (store st1)) Hs)
    as [c Hsave].
  unfold bind at 1. rewrite Hsave.
  unfold bind, lift, ret.
  rewrite (validate_payload_same_hash jmespath_search self event r Hhash). reflexivity.
Qed.

(** On the store in memory [get_record] returns the record the store holds
    for the key, expired or not, when the cache has no other record for
    it. *)
Lemma get_record_stored now event r s (st : state (gmap string DataRecord)) :
  store st !! key event = Some r ->
  (use_local_cache self = true ->
   LRUDict.lookup (key event) (LRUDict.items (_cache st)) = Some r
   \/ LRUDict.lookup (key event) (LRUDict.items (_cache st)) = None) ->
  status r now = Return s ->
  payload_hash r = Some (_get_hashed_payload jmespath_search self event) ->
  fst (get_record jmespath_search self now event st) = Return r.
Proof.
  intros Hstore Hcases Hs Hhash.
  destruct (use_local_cache self) eqn:Hc.
  - destruct (Hcases eq_refl) as [Hl|Hl].
    + destruct (is_expired r now) eqn:Hexp.
      * apply (get_record_from_store now event r s st (evicted (key event) st));
          [|exact Hstore | exact Hs | exact Hhash].
        apply (retrieve_from_cache_is_expired self now _ r st Hc Hl Hexp).
      * rewrite (get_record_on_hit jmespath_search self now event r st Hc Hl Hexp).
        rewrite (validate_payload_same_hash jmespath_search self event r Hhash).
        reflexivity.
    + apply (get_record_from_store now event r s st st);
        [|exact Hstore | exact Hs | exact Hhash].
      apply (retrieve_from_cache_miss self now _ st Hc Hl).
  - apply (get_record_from_store now event r s st st);
      [|exact Hstore | exact Hs | exact Hhash].
    apply retrieve_from_cache_absent. rewrite Hc. discriminate.
Qed.

(** While the store holds a record for the key that has not expired,
    [save_inprogress] is refused. *)
Lemma save_inprogress_refused now event r (st : state (gmap string DataRecord)) :
  store st !! key event = Some r ->
  (use_local_cache self = true ->
   LRUDict.lookup (key event) (LRUDict.items (_cache st)) = Some r
   \/ LRUDict.lookup (key event) (LRUDict.items (_cache st)) = None) ->
  is_expired r now = false ->
  fst (save_inprogress jmespath_search self now event st)
  = Raise IdempotencyItemAlreadyExistsError.
Proof.
  intros Hstore Hcases Hexp.
  destruct (use_local_cache self) eqn:Hc.
  - destruct (Hcases eq_refl) as [Hl|Hl].
    + rewrite (save_inprogress_on_hit jmespath_search self now event r st Hc Hl Hexp).
      reflexivity.
    + rewrite (save_inprogress_uncached now event st (fun _ => Hl)),
        Hstore, Hexp.
      reflexivity.
  - rewrite (save_inprogress_uncached now event st), Hstore, Hexp;
      [reflexivity | rewrite Hc; discriminate].
Qed.

(** After [save_success] the store holds the record built, and the cache
    holds it or nothing for the key. *)
Lemma save_success_holds t event result (st : state (gmap string DataRecord)) :
  store (snd (save_success jmespath_search self t event result st)) !! key event
  = Some (completed_record jmespath_search self t event result)
  /\ (use_local_cache self = true ->
      LRUDict.lookup (key event)
        (LRUDict.items (_cache (snd (save_success jmespath_search self t event result st))))
      = Some (completed_record jmespath_search self t event result)
      \/ LRUDict.lookup (key event)
           (LRUDict.items
              (_cache (snd (save_success jmespath_search self t event result st))))
         = None).
Proof.
  rewrite (save_success_state t event result st). cbn [snd store _cache].
  split; [apply lookup_insert_eq|].
  intros ->. apply SetitemFacts.lookup_setitem_cases.
Qed.

Lemma replay_after_save_success t t' event result
  (st : state (gmap string DataRecord)) :
  fst (get_record jmespath_search self t' event
         (snd (save_success jmespath_search self t event result st)))
  = Return (completed_record jmespath_search self t event result)
  /\ (is_expired (completed_record jmespath_search self t event result) t' = false ->
      fst (save_inprogress jmespath_search self t' event
             (snd (save_success jmespath_search self t event result st)))
      = Raise IdempotencyItemAlreadyExistsError).
Proof.
  destruct (save_success_holds t event result st) as [Hstore Hcases].
  destruct (completed_record_cached jmespath_search self t t' event result)
    as (s & Hs & _).
  split.
  - apply (get_record_stored t' event _ s _ Hstore Hcases Hs). reflexivity.
  - apply (save_inprogress_refused t' event _ _ Hstore Hcases).
Qed.

(** X14: on the store in memory, from every state, with or without the
    cache and for times in the range of [datetime]: [save_success] returns,
    and afterwards [get_record] for the same event returns the record it
    built: [COMPLETED], with the text of the result and the payload hash of
    the event.  For as long as that record has not expired,
    [save_inprogress] for the event raises
    [IdempotencyItemAlreadyExistsError].  Nothing here depends on the
    value of the expiry timestamp. *)
Theorem completed_result_is_replayed t t' event result
  (st : state (gmap string DataRecord)) :
  expiry_computed self t ->
  expiry_computed self t' ->
  exists r,
    record_of jmespath_search self event STATUS_CONSTANTS.COMPLETED (Json.dumps result) r
    /\ fst (save_success jmespath_search self t event result st) = Return tt
    /\ fst (get_record jmespath_search self t' event
              (snd (save_success jmespath_search self t event result st)))
       = Return r
    /\ (is_expired r t' = false ->
        fst (save_inprogress jmespath_search self t' event
               (snd (save_success jmespath_search self t event result st)))
        = Raise IdempotencyItemAlreadyExistsError).
Proof.
  intros _ _.
  exists (completed_record jmespath_search self t event result).
  split; [apply completed_record_of|].
  split; [rewrite save_success_state; reflexivity|].
  apply replay_after_save_success.
Qed.

End KeyLife.

(** ** [json.loads] reads back what [json.dumps] writes *)

Module JsonLoadsFacts.
Import Json JsonText JsonLoads JsonLoadsText.

#[local] Arguments String.append !_ _ / : simpl nomatch.

Lemma skip_ws_opens s : opens s <> 0%N -> skip_ws s = s.
Proof.
  destruct s as [|c s]; [reflexivity|].
  destruct c as [[] [] [] [] [] [] [] []]; intros Hop; try reflexivity;
    exfalso; apply Hop; reflexivity.
Qed.

Lemma skip_ws_closed r : closed r -> skip_ws r = r.
Proof.
  destruct r as [|c r]; [reflexivity|]. intros [->|[->| ->]]; reflexivity.
Qed.

Lemma skip_ws_space s : skip_ws (String " " s) = skip_ws s.
Proof. reflexivity. Qed.

Lemma skip_ws_colon s : skip_ws (": " +:+ s) = String ":" (String " " s).
Proof. reflexivity. Qed.

Lemma skip_ws_comma s : skip_ws (", " +:+ s) = String "," (String " " s).
Proof. reflexivity. Qed.

(** *** Strings *)

Lemma scanstring_escape_char c rest :
  scanstring (escape_char c +:+ rest)
  = match scanstring rest with
    | Some (t, r) => Some (String c t, r)
    | None => None
    end.
Proof. destruct c as [[] [] [] [] [] [] [] []]; reflexivity. Qed.

Lemma scanstring_escape s r :
  scanstring (escape s +:+ String dquote r) = Some (s, r).
Proof.
  induction s as [|c s IH]; [reflexivity|].
  simpl escape. rewrite JsonFacts.app_assoc, scanstring_escape_char, IH. reflexivity.
Qed.

(** *** Numbers *)

Lemma digits_app p r acc :
  all_digits p = true -> digits (p +:+ r) acc = digits r (value p acc).
Proof.
  revert acc. induction p as [|c p IH]; intros acc; [reflexivity|].
  simpl. unfold is_digit. destruct (digit_value c) as [d|]; [|discriminate].
  simpl. apply IH.
Qed.

Lemma value_app p q acc : value (p +:+ q) acc = value q (value p acc).
Proof. revert acc. induction p as [|c p IH]; intros acc; [reflexivity|]. simpl. apply IH. Qed.

Lemma all_digits_app p q : all_digits (p +:+ q) = all_digits p && all_digits q.
Proof.
  induction p as [|c p IH]; [reflexivity|]. simpl. rewrite IH. apply andb_assoc.
Qed.

Lemma pretty_N_char_digit x :
  (x < 10)%N -> digit_value (pretty_N_char x) = Some x.
Proof.
  intros Hx.
  assert (x = 0 \/ x = 1 \/ x = 2 \/ x = 3 \/ x = 4 \/ x = 5 \/ x = 6 \/ x = 7
          \/ x = 8 \/ x = 9)%N as Hc by lia.
  repeat (destruct Hc as [->|Hc]; [reflexivity|]). subst. reflexivity.
Qed.

(** The digits [pretty] writes for [x]: they read back as [x] and do not
    start with [0]. *)
Lemma pretty_N_go_value x :
  forall s, exists p,
    pretty_N_go x s = p +:+ s /\ all_digits p = true /\ value p 0 = x
    /\ (x = 0%N -> p = EmptyString)
    /\ ((0 < x)%N ->
        exists c p' d, p = String c p' /\ digit_value c = Some d /\ d <> 0%N).
Proof.
  induction (N.lt_wf_0 x) as [x _ IH]. intros s.
  assert (x = 0 \/ 0 < x)%N as [->|Hpos] by lia.
  - exists EmptyString. rewrite pretty_N_go_0.
    repeat split; try reflexivity. lia.
  - rewrite pretty_N_go_step by exact Hpos.
    assert (x `mod` 10 < 10)%N as Hmod by (apply N.mod_lt; discriminate).
    destruct (IH (x `div` 10)%N (N.div_lt x 10 Hpos eq_refl)
                 (String (pretty_N_char (x `mod` 10)) s))
      as (p & Hp & Hdig & Hval & Hzero & Hlead).
    exists (p +:+ String (pretty_N_char (x `mod` 10)) EmptyString).
    rewrite Hp, JsonFacts.app_assoc. split; [reflexivity|].
    split; [|split; [|split]].
    + rewrite all_digits_app, Hdig. simpl. unfold is_digit.
      rewrite (pretty_N_char_digit _ Hmod). reflexivity.
    + rewrite value_app, Hval. simpl. rewrite (pretty_N_char_digit _ Hmod).
      pose proof (N.div_mod x 10 ltac:(discriminate)). lia.
    + intros ->. lia.
    + intros _. assert (x `div` 10 = 0 \/ 0 < x `div` 10)%N as [Hz|Hnz] by lia.
      * rewrite (Hzero Hz). simpl.
        exists (pretty_N_char (x `mod` 10)), EmptyString, (x `mod` 10)%N.
        split; [reflexivity|]. split; [apply pretty_N_char_digit, Hmod|].
        pose proof (N.div_mod x 10 ltac:(discriminate)). lia.
      * destruct (Hlead Hnz) as (c & p' & d & -> & Hc & Hd).
        exists c, (p' +:+ String (pretty_N_char (x `mod` 10)) EmptyString), d.
        split; [reflexivity|]. auto.
Qed.

Lemma digits_closed r acc : closed r -> digits r acc = (acc, r).
Proof.
  destruct r as [|c r]; [reflexivity|]. intros [->|[->| ->]]; reflexivity.
Qed.

Lemma float_follows_closed r : closed r -> float_follows r = false.
Proof.
  destruct r as [|c r]; [reflexivity|]. intros [->|[->| ->]]; reflexivity.
Qed.

(** The text of a positive number: its first digit is not [0] and the text
    reads back as the number. *)
Lemma pretty_pos_text (p : positive) :
  exists c t d,
    pretty (N.pos p) = String c t /\ digit_value c = Some d /\ d <> 0%N
    /\ all_digits (String c t) = true /\ value (String c t) 0 = N.pos p.
Proof.
  unfold pretty, pretty_N. rewrite decide_False by discriminate.
  destruct (pretty_N_go_value (N.pos p) EmptyString)
    as (q & Hq & Hdig & Hval & _ & Hlead).
  destruct (Hlead ltac:(lia)) as (c & t & d & -> & Hc & Hd).
  exists c, t, d. rewrite Hq, JsonFacts.app_nil_r. auto.
Qed.

Lemma scan_int_pos (p : positive) r :
  closed r -> scan_int (pretty (N.pos p) +:+ r) = Some (N.pos p, r).
Proof.
  intros Hr. destruct (pretty_pos_text p) as (c & t & d & Ht & Hc & Hd & Hdig & Hval).
  rewrite Ht. simpl String.append. unfold scan_int. rewrite Hc.
  destruct d as [|d']; [contradiction|].
  change (String c (t +:+ r)) with (String c t +:+ r).
  rewrite (digits_app _ _ _ Hdig), Hval, (digits_closed _ _ Hr). reflexivity.
Qed.

Lemma scan_number_pretty (z : Z) r :
  closed r -> scan_number (pretty z +:+ r) = Some (z, r).
Proof.
  intros Hr. destruct z as [|p|p]; unfold pretty, pretty_Z.
  - simpl. unfold scan_number, scan_int. simpl.
    rewrite (float_follows_closed _ Hr). reflexivity.
  - change (pretty p) with (pretty (N.pos p)).
    pose proof (scan_int_pos p r Hr) as Hint.
    destruct (pretty_pos_text p) as (c & t & d & Ht & Hc & _).
    rewrite Ht in *. simpl String.append in *. unfold scan_number.
    assert (Ascii.eqb c "-" = false) as ->.
    { destruct (Ascii.eqb_spec c "-") as [->|]; [discriminate | reflexivity]. }
    rewrite Hint, (float_follows_closed _ Hr). reflexivity.
  - change (pretty p) with (pretty (N.pos p)).
    rewrite JsonFacts.app_assoc. simpl String.append. unfold scan_number.
    simpl Ascii.eqb. cbn iota.
    rewrite (scan_int_pos p r Hr), (float_follows_closed _ Hr). reflexivity.
Qed.


(** *** Values *)

(** Decides the comparisons of the separators that the proofs meet. *)
Ltac compare_chars :=
  try change (Ascii.eqb ":" ":") with true;
  try change (Ascii.eqb "," ",") with true;
  try change (Ascii.eqb "," "]") with false;
  try change (Ascii.eqb "," "}") with false;
  cbv iota.

Lemma scan_items_S f s :
  scan_items (S f) s
  = match scan_once f s with
    | Some (v, r) =>
        match skip_ws r with
        | String c r' =>
            if Ascii.eqb c "]" then Some ([v], r')
            else if Ascii.eqb c "," then
              match scan_items f (skip_ws r') with
              | Some (values, r'') => Some (v :: values, r'')
              | None => None
              end
            else None
        | EmptyString => None
        end
    | None => None
    end.
Proof. reflexivity. Qed.

Lemma scan_pairs_quote f X :
  scan_pairs (S f) (String dquote X)
  = match scanstring X with
    | Some (k, r) =>
        match skip_ws r with
        | String c2 r2 =>
            if Ascii.eqb c2 ":" then
              match scan_once f (skip_ws r2) with
              | Some (v, r3) =>
                  match skip_ws r3 with
                  | String c4 r4 =>
                      if Ascii.eqb c4 "}" then Some ([(k, v)], r4)
                      else if Ascii.eqb c4 "," then
                        match scan_pairs f (skip_ws r4) with
                        | Some (pairs, r5) => Some ((k, v) :: pairs, r5)
                        | None => None
                        end
                      else None
                  | EmptyString => None
                  end
              | None => None
              end
            else None
        | EmptyString => None
        end
    | None => None
    end.
Proof. reflexivity. Qed.

Lemma scan_once_quote f X :
  scan_once (S f) (String dquote X)
  = match scanstring X with
    | Some (t, r) => Some (JStr t, r)
    | None => None
    end.
Proof. reflexivity. Qed.

Lemma scan_once_bracket f T :
  opens T <> 0%N ->
  scan_once (S f) (String "[" T)
  = match scan_items f T with
    | Some (values, r) => Some (JList values, r)
    | None => None
    end.
Proof.
  intros Hop. change (scan_once (S f) (String "[" T))
    with (match skip_ws T with
          | String c1 r1 =>
              if Ascii.eqb c1 "]" then Some (JList [], r1)
              else match scan_items f (String c1 r1) with
                   | Some (values, r) => Some (JList values, r)
                   | None => None
                   end
          | EmptyString => None
          end).
  rewrite (skip_ws_opens _ Hop). destruct T as [|c1 r1]; [contradiction Hop; reflexivity|].
  destruct (Ascii.eqb_spec c1 "]") as [->|_]; [contradiction Hop; reflexivity|].
  reflexivity.
Qed.

Lemma scan_once_brace f kv R :
  scan_once (S f) (String "{" (entry kv +:+ R))
  = match scan_pairs f (entry kv +:+ R) with
    | Some (pairs, r) => Some (JDict (dict_of_pairs pairs), r)
    | None => None
    end.
Proof. unfold entry. rewrite JsonFacts.app_assoc, JsonFacts.encode_app. reflexivity. Qed.

Lemma scan_once_digit f c T :
  is_digit c = true ->
  scan_once (S f) (String c T)
  = match scan_number (String c T) with
    | Some (z, r) => Some (JInt z, r)
    | None => None
    end.
Proof. destruct c as [[] [] [] [] [] [] [] []]; try discriminate; reflexivity. Qed.

Lemma scan_once_minus f c T :
  is_digit c = true ->
  scan_once (S f) (String "-" (String c T))
  = match scan_number (String "-" (String c T)) with
    | Some (z, r) => Some (JInt z, r)
    | None => None
    end.
Proof. destruct c as [[] [] [] [] [] [] [] []]; try discriminate; reflexivity. Qed.

Lemma scan_once_pretty f (z : Z) r :
  closed r -> scan_once (S f) (pretty z +:+ r) = Some (JInt z, r).
Proof.
  intros Hr. pose proof (scan_number_pretty z r Hr) as Hnum.
  destruct z as [|p|p]; unfold pretty, pretty_Z in *.
  - simpl String.append in *. rewrite scan_once_digit by reflexivity.
    rewrite Hnum. reflexivity.
  - change (pretty p) with (pretty (N.pos p)) in *.
    destruct (pretty_pos_text p) as (c & t & d & Ht & Hc & _).
    rewrite Ht in *. simpl String.append in *.
    rewrite scan_once_digit by (unfold is_digit; rewrite Hc; reflexivity).
    rewrite Hnum. reflexivity.
  - change (pretty p) with (pretty (N.pos p)) in *.
    rewrite JsonFacts.app_assoc in *.
    destruct (pretty_pos_text p) as (c & t & d & Ht & Hc & _).
    rewrite Ht in *. simpl String.append in *.
    rewrite scan_once_minus by (unfold is_digit; rewrite Hc; reflexivity).
    rewrite Hnum. reflexivity.
Qed.

Lemma more_closed {A} (item : A -> string) (l : list A) r :
  closed (more A item "]" l r) /\ closed (more A item "}" l r).
Proof. destruct l; simpl; auto. Qed.

Lemma scan_items_dumps xs :
  forall x f r,
    Forall reads_back (x :: xs) ->
    forallb well_formed (x :: xs) = true ->
    (list_sum (map (fun y => S (cost y)) (x :: xs)) <= f)%nat ->
    scan_items f (dumps x +:+ more json dumps "]" xs r) = Some (x :: xs, r).
Proof.
  induction xs as [|y xs IH]; intros x f r Hall Hwf Hf;
    inversion Hall as [|? ? Hx Hxs]; subst;
    apply andb_true_iff in Hwf as [Hwx Hwxs];
    (destruct f as [|f]; [simpl in Hf; lia|]); simpl in Hf;
    rewrite scan_items_S.
  - rewrite (Hx Hwx f _ ltac:(lia) (proj1 (more_closed dumps [] r))). reflexivity.
  - rewrite (Hx Hwx f _ ltac:(lia) (proj1 (more_closed dumps (y :: xs) r))).
    simpl more. simpl skip_ws. compare_chars.
    rewrite skip_ws_space, (skip_ws_opens _ (JsonFacts.dumps_opens y _)).
    rewrite (IH y f r Hxs Hwxs); [reflexivity|]. simpl. lia.
Qed.

Lemma scan_pairs_dumps d :
  forall kv f r,
    Forall (fun kv => reads_back (snd kv)) (kv :: d) ->
    forallb (fun kv => well_formed (snd kv)) (kv :: d) = true ->
    (list_sum (map (fun kv => S (cost (snd kv))) (kv :: d)) <= f)%nat ->
    scan_pairs f (entry kv +:+ more (string * json) entry "}" d r) = Some (kv :: d, r).
Proof.
  induction d as [|kv' d IH]; intros [k v] f r Hall Hwf Hf;
    inversion Hall as [|? ? Hx Hxs]; subst;
    apply andb_true_iff in Hwf as [Hwx Hwxs];
    (destruct f as [|f]; [simpl in Hf; lia|]); simpl in Hf;
    cbn [snd] in Hx, Hwx, Hf;
    unfold entry at 1; cbn [fst snd];
    rewrite !JsonFacts.app_assoc, JsonFacts.encode_app, scan_pairs_quote,
      scanstring_escape, skip_ws_colon;
    cbv beta iota; compare_chars;
    rewrite skip_ws_space, (skip_ws_opens _ (JsonFacts.dumps_opens v _)).
  - rewrite (Hx Hwx f _ ltac:(lia) (proj2 (more_closed entry [] r))). reflexivity.
  - rewrite (Hx Hwx f _ ltac:(lia) (proj2 (more_closed entry (kv' :: d) r))).
    change (more (string * json) entry "}" (kv' :: d) r)
      with (", " +:+ entry kv' +:+ more (string * json) entry "}" d r).
    rewrite skip_ws_comma. cbv beta iota. compare_chars.
    rewrite skip_ws_space, (skip_ws_opens _ (JsonFacts.entry_opens kv' _)).
    rewrite (IH kv' f r Hxs Hwxs); [reflexivity|]. simpl. lia.
Qed.

Lemma dict_set_new k v d :
  k ∉ map fst d -> dict_set k v d = d ++ [(k, v)].
Proof.
  induction d as [|[k' v'] d IH]; simpl; [reflexivity|].
  rewrite not_elem_of_cons. intros [Hne Hnin].
  destruct (String.eqb_spec k' k); [congruence|]. rewrite (IH Hnin). reflexivity.
Qed.

Lemma dict_of_pairs_distinct d : NoDup (map fst d) -> dict_of_pairs d = d.
Proof.
  unfold dict_of_pairs.
  assert (forall acc, NoDup (map fst (acc ++ d)) ->
            fold_left (fun d kv => dict_set (fst kv) (snd kv) d) d acc = acc ++ d) as Hgen.
  { induction d as [|[k v] d IH]; intros acc Hnd; simpl.
    - rewrite app_nil_r. reflexivity.
    - rewrite dict_set_new.
      + rewrite IH; rewrite <- app_assoc; [reflexivity | exact Hnd].
      + rewrite map_app in Hnd. simpl in Hnd.
        apply NoDup_app in Hnd as (_ & Hdis & _).
        intros Hin. apply (Hdis k Hin). apply list_elem_of_here. }
  intros Hnd. apply (Hgen [] Hnd).
Qed.

Lemma dumps_reads_back (x : json) : reads_back x.
Proof.
  induction x as [|b|z|s|l IH|d IH] using json_induction; intros Hwf f r Hf Hr;
    (destruct f as [|f]; [simpl in Hf; lia|]).
  - reflexivity.
  - destruct b; reflexivity.
  - simpl dumps. apply scan_once_pretty, Hr.
  - simpl dumps. rewrite JsonFacts.encode_app, scan_once_quote, scanstring_escape.
    reflexivity.
  - destruct l as [|x xs]; [reflexivity|].
    change (dumps (JList (x :: xs)) +:+ r)
      with (String "[" ((String.concat ", " (map dumps (x :: xs)) +:+ "]") +:+ r)).
    rewrite (JsonFacts.concat_body json dumps "]"). unfold body.
    rewrite (scan_once_bracket _ _ (JsonFacts.dumps_opens x _)).
    rewrite (scan_items_dumps xs x f r IH Hwf); [reflexivity|].
    simpl in Hf. simpl. lia.
  - destruct d as [|kv d]; [reflexivity|].
    simpl in Hwf. apply andb_true_iff in Hwf as [Hnd Hwf].
    apply bool_decide_eq_true in Hnd.
    change (dumps (JDict (kv :: d)) +:+ r)
      with (String "{" ((String.concat ", " (map entry (kv :: d)) +:+ "}") +:+ r)).
    rewrite (JsonFacts.concat_body _ entry "}"). unfold body.
    rewrite scan_once_brace.
    rewrite (scan_pairs_dumps d kv f r IH Hwf); [|simpl in Hf; simpl; lia].
    rewrite (dict_of_pairs_distinct (kv :: d) Hnd). reflexivity.
Qed.

(** *** The fuel of [loads] is enough *)

Lemma length_app a b :
  String.length (a +:+ b) = (String.length a + String.length b)%nat.
Proof. induction a as [|c a IH]; simpl; [reflexivity | rewrite IH; reflexivity]. Qed.

Lemma cost_sum_le_length {A} (item : A -> string) (c : A -> nat) (l : list A) :
  Forall (fun a => (c a <= String.length (item a))%nat) l ->
  (list_sum (map (fun a => S (c a)) l)
   <= String.length (String.concat ", " (map item l)) + 1)%nat.
Proof.
  induction 1 as [|a l Ha Hl IH]; [simpl; lia|].
  destruct l as [|b l]; [simpl in *; lia|].
  change (String.concat ", " (map item (a :: b :: l)))
    with (item a +:+ ", " +:+ String.concat ", " (map item (b :: l))).
  rewrite !length_app. change (String.length ", ") with 2%nat.
  change (list_sum (map (fun a => S (c a)) (a :: b :: l)))
    with (S (c a) + list_sum (map (fun a => S (c a)) (b :: l)))%nat.
  lia.
Qed.

Lemma cost_le_length (x : json) : (cost x <= String.length (dumps x))%nat.
Proof.
  induction x as [|b|z|s|l IH|d IH] using json_induction.
  - simpl. lia.
  - destruct b; simpl; lia.
  - simpl. destruct (JsonFacts.pretty_Z_number z) as [_ Hne].
    destruct (pretty z); [contradiction | simpl; lia].
  - simpl. lia.
  - change (dumps (JList l))
      with ("[" +:+ (String.concat ", " (map dumps l) +:+ "]")).
    change (cost (JList l)) with (S (list_sum (map (fun y => S (cost y)) l))).
    rewrite !length_app.
    change (String.length "[") with 1%nat. change (String.length "]") with 1%nat.
    pose proof (cost_sum_le_length dumps cost l IH). lia.
  - change (dumps (JDict d))
      with ("{" +:+ (String.concat ", " (map entry d) +:+ "}")).
    change (cost (JDict d)) with (S (list_sum (map (fun kv => S (cost (snd kv))) d))).
    assert (Forall (fun kv => (cost (snd kv) <= String.length (entry kv))%nat) d) as Hd.
    { eapply Forall_impl; [exact IH|]. intros kv Hkv. cbv beta in Hkv.
      unfold entry. rewrite !length_app. lia. }
    pose proof (cost_sum_le_length entry (fun kv => cost (snd kv)) d Hd).
    rewrite !length_app.
    change (String.length "{") with 1%nat. change (String.length "}") with 1%nat.
    lia.
Qed.

Lemma loads_dumps (x : json) : well_formed x = true -> loads (dumps x) = Some x.
Proof.
  intros Hwf. unfold loads.
  rewrite <- (JsonFacts.app_nil_r (dumps x)) at 2.
  rewrite (skip_ws_opens _ (JsonFacts.dumps_opens x EmptyString)).
  rewrite (dumps_reads_back x Hwf _ EmptyString (cost_le_length x) I). reflexivity.
Qed.

End JsonLoadsFacts.

Section ReadBack.

Variable jmespath_search : string -> json -> json.
Variable self : BasePersistenceLayer.

(** X16: [DataRecord.response_json_as_dict] on the records the layer
    builds.  On the record of [save_success] it gives back the result
    ([json.loads] undoes [json.dumps] on every value whose mappings have
    distinct keys); on the record of [save_inprogress], whose response data
    is the empty string, it fails. *)
Theorem response_of_built_records now event result :
  JsonLoadsText.well_formed result = true ->
  response_json_as_dict (completed_record jmespath_search self now event result)
  = Some result
  /\ response_json_as_dict (inprogress_record jmespath_search self now event) = None.
Proof.
  intros Hwf. split; [|reflexivity].
  apply (JsonLoadsFacts.loads_dumps result Hwf).
Qed.

(** X15: the saved result is read back.  On the store in memory, from every
    state, with or without the cache, after a [save_success] made at a
    time in the range of [datetime] with a result whose mappings have
    distinct keys, [get_record] for the same event, at any time, returns a
    record whose [response_json_as_dict] is that result. *)
Theorem saved_result_is_read_back t t' event result
  (st : state (gmap string DataRecord)) :
  expiry_computed self t ->
  JsonLoadsText.well_formed result = true ->
  exists r,
    fst (get_record jmespath_search self t' event
           (snd (save_success jmespath_search self t event result st)))
    = Return r
    /\ response_json_as_dict r = Some result.
Proof.
  intros _ Hwf.
  exists (completed_record jmespath_search self t event result). split.
  - apply (replay_after_save_success jmespath_search self t t' event result st).
  - apply (JsonLoadsFacts.loads_dumps result Hwf).
Qed.

End ReadBack.


Lemma get_record_cache_hit_witness :
  get_record search_identifier (layer "id" "body" true) 200 order_1 cached_completed_1
  = (match _validate_payload search_identifier (layer "id" "body" true) order_1 completed_1 with
     | Return _ => Return completed_1
     | Raise e => Raise e
     end,
     touched (_get_hashed_idempotency_key search_identifier (layer "id" "body" true) order_1)
       completed_1 cached_completed_1)
  /\ store (touched
              (_get_hashed_idempotency_key search_identifier (layer "id" "body" true) order_1)
              completed_1 cached_completed_1)
     = store cached_completed_1.
Proof.
  apply (get_record_cache_hit search_identifier (layer "id" "body" true) 200 order_1
           completed_1 cached_completed_1).
  - reflexivity.
  - vm_compute. reflexivity.
  - reflexivity.
Defined.

Lemma save_success_then_get_record_witness :
  exists st',
    get_record search_identifier (layer "id" "body" true) 200 order_1 cached_completed_1
    = (Return completed_1, st')
    /\ store st' = store_completed_1.
Proof.
  destruct (save_success_then_get_record search_identifier (layer "id" "body" true)
              100 order_1 (JInt 5)
              (init (layer "id" "body" true) empty_store) cached_completed_1)
    as (r & _ & Hl & Hget).
  - reflexivity.
  - simpl. lia.
  - vm_compute. reflexivity.
  - assert (r = completed_1) as -> by (vm_compute in Hl; injection Hl as <-; reflexivity).
    apply (Hget 200 order_1); reflexivity.
Defined.

Lemma get_record_store_error_witness :
  get_record search_identifier (layer "id" "body" true) 100 order_1
    (init (layer "id" "body" true) empty_store)
  = (Raise IdempotencyItemNotFoundError,
     mkState (_cache (init (layer "id" "body" true) empty_store)) empty_store).
Proof.
  apply (get_record_store_error search_identifier (layer "id" "body" true) 100 order_1
           IdempotencyItemNotFoundError
           (init (layer "id" "body" true) empty_store)
           (init (layer "id" "body" true) empty_store) empty_store).
  - reflexivity.
  - vm_compute. reflexivity.
Defined.

Lemma get_record_unknown_status_witness :
  get_record search_identifier (layer "id" "body" true) 200 order_1
    (init (layer "id" "body" true) store_unknown_1)
  = (Raise (IdempotencyInvalidStatusError (_status unknown_1)),
     mkState (_cache (init (layer "id" "body" true) store_unknown_1)) store_unknown_1)
  /\ get_record search_identifier (with_cache false (layer "id" "body" true)) 200 order_1
       (init (layer "id" "body" true) store_unknown_1)
     = (match _validate_payload search_identifier (layer "id" "body" true) order_1 unknown_1 with
        | Return _ => Return unknown_1
        | Raise e => Raise e
        end,
        mkState (_cache (init (layer "id" "body" true) store_unknown_1)) store_unknown_1).
Proof.
  apply (get_record_unknown_status search_identifier (layer "id" "body" true) 200 order_1
           unknown_1 (init (layer "id" "body" true) store_unknown_1) store_unknown_1).
  - reflexivity.
  - reflexivity.
  - vm_compute. reflexivity.
  - reflexivity.
  - reflexivity.
Defined.

Lemma delete_record_evicts_witness :
  exists st',
    delete_record search_identifier (layer "id" "body" true) 200 order_1 cached_completed_1
    = (Return tt, st')
    /\ store st' = empty_store
    /\ LRUDict.lookup
         (_get_hashed_idempotency_key search_identifier (layer "id" "body" true) order_1)
         (LRUDict.items (_cache st')) = None
    /\ _retrieve_from_cache (layer "id" "body" true) 201
         (_get_hashed_idempotency_key search_identifier (layer "id" "body" true) order_1) st'
       = (Return None, st').
Proof.
  apply (delete_record_evicts search_identifier (layer "id" "body" true) 200 201 order_1
           completed_1 cached_completed_1 empty_store).
  - reflexivity.
  - vm_compute. reflexivity.
  - vm_compute. reflexivity.
Defined.

Lemma cache_serves_finished_records_witness :
  idempotency_key completed_1 = "c4ca4238a0b923820dcc509a6f75849b"
  /\ (_status completed_1 = STATUS_CONSTANTS.COMPLETED
      \/ _status completed_1 = STATUS_CONSTANTS.EXPIRED)
  /\ status completed_1 101 = Return (_status completed_1).
Proof.
  apply (cache_serves_finished_records search_identifier (layer "id" "body" true)
           [(100, SaveSuccess order_1 (JInt 5))] 100 101 empty_store
           "c4ca4238a0b923820dcc509a6f75849b" completed_1
           (snd (_retrieve_from_cache (layer "id" "body" true) 101
                   "c4ca4238a0b923820dcc509a6f75849b"
                   (exec search_identifier (layer "id" "body" true)
                      [(100, SaveSuccess order_1 (JInt 5))]
                      (init (layer "id" "body" true) empty_store))))).
  - simpl. lia.
  - simpl. lia.
  - vm_compute. reflexivity.
Defined.

Lemma save_inprogress_locks_until_expiry_witness :
  fst (save_inprogress search_identifier (layer "id" "body" true) 1600000000 order_1
         (init (layer "id" "body" true) empty_store)) = Return tt
  /\ fst (save_inprogress search_identifier (layer "id" "body" true) 1600000200 order_1
            (snd (save_inprogress search_identifier (layer "id" "body" true)
                    1600000000 order_1 (init (layer "id" "body" true) empty_store))))
     = Raise IdempotencyItemAlreadyExistsError.
Proof.
  destruct (save_inprogress_locks_until_expiry search_identifier (layer "id" "body" true)
              1600000000 1600000200 order_1 (init (layer "id" "body" true) empty_store))
    as (r & _ & Hfirst & Hstore & Hheld & _).
  - unfold expiry_computed, in_datetime_range. simpl. lia.
  - unfold expiry_computed, in_datetime_range. simpl. lia.
  - reflexivity.
  - vm_compute. reflexivity.
  - split; [rewrite Hfirst; reflexivity|].
    apply Hheld.
    assert (r = inprogress_record search_identifier (layer "id" "body" true)
                  1600000000 order_1) as ->
      by (vm_compute in Hstore; injection Hstore as <-; reflexivity).
    reflexivity.
Defined.

Lemma completed_result_is_replayed_witness :
  fst (get_record search_identifier (layer "id" "body" true) 1600000200 order_1
         (snd (save_success search_identifier (layer "id" "body" true) 1600000000 order_1
                 (JInt 5) (init (layer "id" "body" true) empty_store))))
  = Return (completed_record search_identifier (layer "id" "body" true) 1600000000
              order_1 (JInt 5))
  /\ fst (save_inprogress search_identifier (layer "id" "body" true) 1600000200 order_1
            (snd (save_success search_identifier (layer "id" "body" true) 1600000000
                    order_1 (JInt 5) (init (layer "id" "body" true) empty_store))))
     = Raise IdempotencyItemAlreadyExistsError.
Proof.
  destruct (completed_result_is_replayed search_identifier (layer "id" "body" true)
              1600000000 1600000200 order_1 (JInt 5)
              (init (layer "id" "body" true) empty_store))
    as (r & _ & _ & Hget & Hheld).
  - unfold expiry_computed, in_datetime_range. simpl. lia.
  - unfold expiry_computed, in_datetime_range. simpl. lia.
  - assert (r = completed_record search_identifier (layer "id" "body" true) 1600000000
                  order_1 (JInt 5)) as ->
      by (vm_compute in Hget; injection Hget as <-; reflexivity).
    split; [exact Hget | apply Hheld; reflexivity].
Defined.

Lemma saved_result_is_read_back_witness :
  exists r,
    fst (get_record search_identifier (layer "id" "body" false) 1600007200 order_1
           (snd (save_success search_identifier (layer "id" "body" false) 1600000000
                   order_1
                   (JDict [("total", JInt 5); ("items", JList [JStr "x"])])
                   (init (layer "id" "body" false) empty_store))))
    = Return r
    /\ response_json_as_dict r
       = Some (JDict [("total", JInt 5); ("items", JList [JStr "x"])]).
Proof.
  apply (saved_result_is_read_back search_identifier (layer "id" "body" false)
           1600000000 1600007200 order_1
           (JDict [("total", JInt 5); ("items", JList [JStr "x"])])
           (init (layer "id" "body" false) empty_store)).
  - unfold expiry_computed, in_datetime_range. simpl. lia.
  - vm_compute. reflexivity.
Defined.

Lemma response_of_built_records_witness :
  response_json_as_dict
    (completed_record search_identifier (layer "id" "body" true) 100 order_1
       (JList [JInt 1; JNull; JDict [("a", JBool true)]]))
  = Some (JList [JInt 1; JNull; JDict [("a", JBool true)]])
  /\ response_json_as_dict
       (inprogress_record search_identifier (layer "id" "body" true) 100 order_1) = None.
Proof.
  apply (response_of_built_records search_identifier (layer "id" "body" true) 100 order_1
           (JList [JInt 1; JNull; JDict [("a", JBool true)]])).
  vm_compute. reflexivity.
Defined.
